(** * Kortex gripper hardware interface: mode arbitration and lifecycle

    A shallow embedding of
    [kortex2_gripper_driver/src/gripper_hardware_interface.cpp]
    (class [KortexGripperInterfaceHardware]) and the properties of its
    topology validation, command-mode switching and cyclic read/write.

    Conventions of the embedding:
    - a C++ [double] is a binary64 [float]; [quiet_NaN] is [nan];
    - a [std::vector] is a [list]; [operator[]] outside the vector is
      undefined behaviour and is reported as the outcome [OutOfRange];
    - the member variables of the class are the fields of the record [HW];
      every member function maps a [HW] to an outcome holding the returned
      [return_type] and the next [HW];
    - the calls made on the Kortex API objects (transports, session
      managers, [base_], [base_cyclic_]) are recorded, in order, in the
      field [session_log_]; what the device answers is an argument of the
      member function that asks. *)

From Stdlib Require Import ZArith Floats.
From stdpp Require Import base list strings gmap.

Open Scope string_scope.
Open Scope list_scope.

(** ** Framework types (hardware_interface) *)

Inductive return_type := OK | ERROR.

Inductive status := UNKNOWN | CONFIGURED | STARTED | STOPPED.

Definition HW_IF_POSITION : string := "position".
Definition HW_IF_VELOCITY : string := "velocity".
Definition HW_IF_EFFORT : string := "effort".

Record InterfaceInfo := { if_name : string }.

Record ComponentInfo := {
  name : string;
  command_interfaces : list InterfaceInfo;
  state_interfaces : list InterfaceInfo
}.

Record HardwareInfo := {
  joints : list ComponentInfo;
  hardware_parameters : gmap string string
}.

(** ** The driver's own types *)

(** Modelled from the spec: the enumeration [integration_lvl_t] is declared
    in the header [gripper_hardware_interface.hpp], which is not among the
    sources.  The data model lists the control modes Undefined, Position,
    Velocity and Effort; these are the four enumerators this file uses. *)
Inductive integration_lvl_t := UNDEFINED | POSITION | VELOCITY | EFFORT.

Definition lvl_eqb (a b : integration_lvl_t) : bool :=
  match a, b with
  | UNDEFINED, UNDEFINED | POSITION, POSITION
  | VELOCITY, VELOCITY | EFFORT, EFFORT => true
  | _, _ => false
  end.

(** Calls on the Kortex API objects, as the driver issues them. *)
Inductive SessionCall :=
  | TcpConnect (ip : string)
  | UdpRealtimeConnect (ip : string)
  | CreateSession
  | CreateSessionRealTime
  | RefreshFeedback
  | GetMeasuredGripperMovement
  | CloseSession
  | SetActivationStatus (active : bool)
  | TcpDisconnect.

Record MotorCommand := {
  mc_position : float;
  mc_velocity : float;
  mc_force : float
}.

(** [base_command_]: the cyclic command message. *)
Record BaseCommand := {
  frame_id : Z;
  command_id : Z;
  motor_cmd : list MotorCommand
}.

(** The member variables this file reads and writes.  They are declared
    in the same header; each has the type its uses here require (the
    [resize] calls of [configure] fix the element types).  The port
    constants of the two transports are declared there too and play no
    part below. *)
Record HW := {
  info_ : HardwareInfo;
  status_ : status;
  hw_positions_ : list float;
  hw_velocities_ : list float;
  hw_efforts_ : list float;
  hw_commands_positions_ : list float;
  hw_commands_velocities_ : list float;
  hw_commands_efforts_ : list float;
  control_lvl_ : list integration_lvl_t;
  base_command_ : BaseCommand;
  session_log_ : list SessionCall
}.

Definition quiet_NaN : float := nan.

(** A freshly constructed component: empty vectors, empty description. *)
Definition constructed : HW := {|
  info_ := {| joints := []; hardware_parameters := ∅ |};
  status_ := UNKNOWN;
  hw_positions_ := [];
  hw_velocities_ := [];
  hw_efforts_ := [];
  hw_commands_positions_ := [];
  hw_commands_velocities_ := [];
  hw_commands_efforts_ := [];
  control_lvl_ := [];
  base_command_ := {| frame_id := 0; command_id := 0; motor_cmd := [] |};
  session_log_ := []
|}.

(** ** Outcomes: a value, or an access outside a vector *)

Inductive outcome (A : Type) :=
  | Normal (a : A)
  | OutOfRange.
Arguments Normal {A} a.
Arguments OutOfRange {A}.

Definition bind {A B} (o : outcome A) (k : A -> outcome B) : outcome B :=
  match o with
  | Normal a => k a
  | OutOfRange => OutOfRange
  end.

Declare Scope outcome_scope.
Delimit Scope outcome_scope with outcome.
Notation "'let!' x ':=' e 'in' k" := (bind e (fun x => k))
  (at level 10, x name, e at level 200, k at level 200) : outcome_scope.
Open Scope outcome_scope.

(** [v[i]] as an rvalue and [v[i] = x]. *)
Definition vec_get {A} (v : list A) (i : nat) : outcome A :=
  match v !! i with
  | Some x => Normal x
  | None => OutOfRange
  end.

Definition vec_set {A} (v : list A) (i : nat) (x : A) : outcome (list A) :=
  if decide (i < length v) then Normal (<[i := x]> v) else OutOfRange.

Definition push_back {A} (v : list A) (x : A) : list A := v ++ [x].

(** ** Assignments to single members *)

Definition set_info (x : HardwareInfo) (hw : HW) : HW :=
  {| info_ := x; status_ := status_ hw;
     hw_positions_ := hw_positions_ hw;
     hw_velocities_ := hw_velocities_ hw;
     hw_efforts_ := hw_efforts_ hw;
     hw_commands_positions_ := hw_commands_positions_ hw;
     hw_commands_velocities_ := hw_commands_velocities_ hw;
     hw_commands_efforts_ := hw_commands_efforts_ hw;
     control_lvl_ := control_lvl_ hw;
     base_command_ := base_command_ hw;
     session_log_ := session_log_ hw |}.

Definition set_status (x : status) (hw : HW) : HW :=
  {| info_ := info_ hw; status_ := x;
     hw_positions_ := hw_positions_ hw;
     hw_velocities_ := hw_velocities_ hw;
     hw_efforts_ := hw_efforts_ hw;
     hw_commands_positions_ := hw_commands_positions_ hw;
     hw_commands_velocities_ := hw_commands_velocities_ hw;
     hw_commands_efforts_ := hw_commands_efforts_ hw;
     control_lvl_ := control_lvl_ hw;
     base_command_ := base_command_ hw;
     session_log_ := session_log_ hw |}.

Definition set_hw_positions (x : list float) (hw : HW) : HW :=
  {| info_ := info_ hw; status_ := status_ hw;
     hw_positions_ := x;
     hw_velocities_ := hw_velocities_ hw;
     hw_efforts_ := hw_efforts_ hw;
     hw_commands_positions_ := hw_commands_positions_ hw;
     hw_commands_velocities_ := hw_commands_velocities_ hw;
     hw_commands_efforts_ := hw_commands_efforts_ hw;
     control_lvl_ := control_lvl_ hw;
     base_command_ := base_command_ hw;
     session_log_ := session_log_ hw |}.

Definition set_hw_velocities (x : list float) (hw : HW) : HW :=
  {| info_ := info_ hw; status_ := status_ hw;
     hw_positions_ := hw_positions_ hw;
     hw_velocities_ := x;
     hw_efforts_ := hw_efforts_ hw;
     hw_commands_positions_ := hw_commands_positions_ hw;
     hw_commands_velocities_ := hw_commands_velocities_ hw;
     hw_commands_efforts_ := hw_commands_efforts_ hw;
     control_lvl_ := control_lvl_ hw;
     base_command_ := base_command_ hw;
     session_log_ := session_log_ hw |}.

Definition set_hw_efforts (x : list float) (hw : HW) : HW :=
  {| info_ := info_ hw; status_ := status_ hw;
     hw_positions_ := hw_positions_ hw;
     hw_velocities_ := hw_velocities_ hw;
     hw_efforts_ := x;
     hw_commands_positions_ := hw_commands_positions_ hw;
     hw_commands_velocities_ := hw_commands_velocities_ hw;
     hw_commands_efforts_ := hw_commands_efforts_ hw;
     control_lvl_ := control_lvl_ hw;
     base_command_ := base_command_ hw;
     session_log_ := session_log_ hw |}.

Definition set_hw_commands_positions (x : list float) (hw : HW) : HW :=
  {| info_ := info_ hw; status_ := status_ hw;
     hw_positions_ := hw_positions_ hw;
     hw_velocities_ := hw_velocities_ hw;
     hw_efforts_ := hw_efforts_ hw;
     hw_commands_positions_ := x;
     hw_commands_velocities_ := hw_commands_velocities_ hw;
     hw_commands_efforts_ := hw_commands_efforts_ hw;
     control_lvl_ := control_lvl_ hw;
     base_command_ := base_command_ hw;
     session_log_ := session_log_ hw |}.

Definition set_hw_commands_velocities (x : list float) (hw : HW) : HW :=
  {| info_ := info_ hw; status_ := status_ hw;
     hw_positions_ := hw_positions_ hw;
     hw_velocities_ := hw_velocities_ hw;
     hw_efforts_ := hw_efforts_ hw;
     hw_commands_positions_ := hw_commands_positions_ hw;
     hw_commands_velocities_ := x;
     hw_commands_efforts_ := hw_commands_efforts_ hw;
     control_lvl_ := control_lvl_ hw;
     base_command_ := base_command_ hw;
     session_log_ := session_log_ hw |}.

Definition set_hw_commands_efforts (x : list float) (hw : HW) : HW :=
  {| info_ := info_ hw; status_ := status_ hw;
     hw_positions_ := hw_positions_ hw;
     hw_velocities_ := hw_velocities_ hw;
     hw_efforts_ := hw_efforts_ hw;
     hw_commands_positions_ := hw_commands_positions_ hw;
     hw_commands_velocities_ := hw_commands_velocities_ hw;
     hw_commands_efforts_ := x;
     control_lvl_ := control_lvl_ hw;
     base_command_ := base_command_ hw;
     session_log_ := session_log_ hw |}.

Definition set_control_lvl (x : list integration_lvl_t) (hw : HW) : HW :=
  {| info_ := info_ hw; status_ := status_ hw;
     hw_positions_ := hw_positions_ hw;
     hw_velocities_ := hw_velocities_ hw;
     hw_efforts_ := hw_efforts_ hw;
     hw_commands_positions_ := hw_commands_positions_ hw;
     hw_commands_velocities_ := hw_commands_velocities_ hw;
     hw_commands_efforts_ := hw_commands_efforts_ hw;
     control_lvl_ := x;
     base_command_ := base_command_ hw;
     session_log_ := session_log_ hw |}.

Definition set_base_command (x : BaseCommand) (hw : HW) : HW :=
  {| info_ := info_ hw; status_ := status_ hw;
     hw_positions_ := hw_positions_ hw;
     hw_velocities_ := hw_velocities_ hw;
     hw_efforts_ := hw_efforts_ hw;
     hw_commands_positions_ := hw_commands_positions_ hw;
     hw_commands_velocities_ := hw_commands_velocities_ hw;
     hw_commands_efforts_ := hw_commands_efforts_ hw;
     control_lvl_ := control_lvl_ hw;
     base_command_ := x;
     session_log_ := session_log_ hw |}.

(** A call on one of the Kortex API objects. *)
Definition call (c : SessionCall) (hw : HW) : HW :=
  {| info_ := info_ hw; status_ := status_ hw;
     hw_positions_ := hw_positions_ hw;
     hw_velocities_ := hw_velocities_ hw;
     hw_efforts_ := hw_efforts_ hw;
     hw_commands_positions_ := hw_commands_positions_ hw;
     hw_commands_velocities_ := hw_commands_velocities_ hw;
     hw_commands_efforts_ := hw_commands_efforts_ hw;
     control_lvl_ := control_lvl_ hw;
     base_command_ := base_command_ hw;
     session_log_ := push_back (session_log_ hw) c |}.

(** ** configure *)

(** The framework's base-class helper [configure_default] is not part of
    this file.  It records the description and the CONFIGURED status; its
    return code is the argument [rc] of [configure]. *)
Definition configure_default (rc : return_type) (info : HardwareInfo) (hw : HW)
  : return_type * HW :=
  match rc with
  | OK => (OK, set_status CONFIGURED (set_info info hw))
  | ERROR => (ERROR, hw)
  end.

(** Lines 60-68: [info_ = info] and the seven [resize] calls. *)
Definition size_storage (info : HardwareInfo) (hw : HW) : HW :=
  let hw := set_info info hw in
  let n := length (joints (info_ hw)) in
  {| info_ := info_ hw;
     status_ := status_ hw;
     hw_positions_ := resize n quiet_NaN (hw_positions_ hw);
     hw_velocities_ := resize n quiet_NaN (hw_velocities_ hw);
     hw_efforts_ := resize n quiet_NaN (hw_efforts_ hw);
     hw_commands_positions_ := resize n quiet_NaN (hw_commands_positions_ hw);
     hw_commands_velocities_ := resize n quiet_NaN (hw_commands_velocities_ hw);
     hw_commands_efforts_ := resize n quiet_NaN (hw_commands_efforts_ hw);
     control_lvl_ := resize n POSITION (control_lvl_ hw);
     base_command_ := base_command_ hw;
     session_log_ := session_log_ hw |}.

(** The body of the validation loop for one joint (lines 72-102):
    [true] when none of the four tests returns ERROR.  The element
    accesses [command_interfaces[0]] and [state_interfaces[0]] are guarded
    by the size tests before them. *)
Definition joint_ok (joint : ComponentInfo) : bool :=
  match command_interfaces joint with
  | [c0] =>
      if negb (String.eqb (if_name c0) HW_IF_POSITION) then false
      else
        match state_interfaces joint with
        | [s0; _] =>
            if negb (String.eqb (if_name s0) HW_IF_POSITION
                     || String.eqb (if_name s0) HW_IF_VELOCITY)
            then false
            else true
        | _ => false
        end
  | _ => false
  end.

Fixpoint validate_joints (js : list ComponentInfo) : return_type :=
  match js with
  | [] => OK
  | joint :: rest => if joint_ok joint then validate_joints rest else ERROR
  end.

Definition configure (rc : return_type) (info : HardwareInfo) (hw : HW)
  : return_type * HW :=
  match configure_default rc info hw with
  | (ERROR, hw1) => (ERROR, hw1)
  | (OK, hw1) =>
      let hw2 := size_storage info hw1 in
      match validate_joints (joints (info_ hw2)) with
      | ERROR => (ERROR, hw2)
      | OK => (OK, set_status CONFIGURED hw2)
      end
  end.

(** ** prepare_command_mode_switch *)

(** [joint_name + "/" + kind] *)
Definition interface_key (joint_name kind : string) : string :=
  String.append (String.append joint_name "/") kind.

(** [key.find(joint_name) != std::string::npos] *)
Definition found_in (key joint_name : string) : bool :=
  match String.index 0 joint_name key with
  | Some _ => true
  | None => false
  end.

(** The inner loop of lines 145-159 for one start key: three independent
    tests per joint, each appending to [new_modes]. *)
Fixpoint resolve_key (key : string) (js : list ComponentInfo)
    (new_modes : list integration_lvl_t) : list integration_lvl_t :=
  match js with
  | [] => new_modes
  | joint :: rest =>
      let new_modes :=
        if String.eqb key (interface_key (name joint) HW_IF_POSITION)
        then push_back new_modes POSITION else new_modes in
      let new_modes :=
        if String.eqb key (interface_key (name joint) HW_IF_VELOCITY)
        then push_back new_modes VELOCITY else new_modes in
      let new_modes :=
        if String.eqb key (interface_key (name joint) HW_IF_EFFORT)
        then push_back new_modes EFFORT else new_modes in
      resolve_key key rest new_modes
  end.

(** Lines 143-160. *)
Fixpoint resolve_start (start_interfaces : list string)
    (js : list ComponentInfo) (new_modes : list integration_lvl_t)
  : list integration_lvl_t :=
  match start_interfaces with
  | [] => new_modes
  | key :: rest => resolve_start rest js (resolve_key key js new_modes)
  end.

(** Line 167: [std::all_of(new_modes.begin() + 1, new_modes.end(), ...)]
    with the predicate [mode == new_modes[0]].  On an empty vector
    [begin() + 1] lies beyond [end()]: the range is not valid and the
    traversal reads outside the vector. *)
Definition all_equal_first (new_modes : list integration_lvl_t)
  : outcome bool :=
  match new_modes with
  | [] => OutOfRange
  | first :: others => Normal (forallb (fun mode => lvl_eqb mode first) others)
  end.

(** Lines 177-182, the stop of joint [i]. *)
Definition stop_joint (i : nat) (hw : HW) : outcome HW :=
  let! v := vec_set (hw_commands_velocities_ hw) i 0%float in
  let hw := set_hw_commands_velocities v hw in
  let! e := vec_set (hw_commands_efforts_ hw) i 0%float in
  let hw := set_hw_commands_efforts e hw in
  let! c := vec_set (control_lvl_ hw) i UNDEFINED in
  Normal (set_control_lvl c hw).

(** The inner loop of lines 175-183 for one stop key, from joint [i] on. *)
Fixpoint stop_key (key : string) (i : nat) (js : list ComponentInfo) (hw : HW)
  : outcome HW :=
  match js with
  | [] => Normal hw
  | joint :: rest =>
      let! hw := (if found_in key (name joint) then stop_joint i hw
                else Normal hw) in
      stop_key key (S i) rest hw
  end.

(** Lines 173-184. *)
Fixpoint stop_motion (stop_interfaces : list string) (hw : HW) : outcome HW :=
  match stop_interfaces with
  | [] => Normal hw
  | key :: rest =>
      let! hw := stop_key key 0 (joints (info_ hw)) hw in
      stop_motion rest hw
  end.

(** Lines 186-195: the loop over [i], with [todo] iterations left, and
    the final [return OK]. *)
Fixpoint set_new_modes (new_modes : list integration_lvl_t) (i todo : nat)
    (hw : HW) : outcome (return_type * HW) :=
  match todo with
  | 0 => Normal (OK, hw)
  | S todo =>
      let! lvl := vec_get (control_lvl_ hw) i in
      if negb (lvl_eqb lvl UNDEFINED) then Normal (ERROR, hw)
      else
        let! mode := vec_get new_modes i in
        let! c := vec_set (control_lvl_ hw) i mode in
        set_new_modes new_modes (S i) todo (set_control_lvl c hw)
  end.

Definition prepare_command_mode_switch
    (start_interfaces stop_interfaces : list string) (hw : HW)
  : outcome (return_type * HW) :=
  let new_modes := resolve_start start_interfaces (joints (info_ hw)) [] in
  if negb (Nat.eqb (length new_modes) (length (joints (info_ hw))))
  then Normal (ERROR, hw)
  else
    let! same := all_equal_first new_modes in
    if negb same then Normal (ERROR, hw)
    else
      let! hw := stop_motion stop_interfaces hw in
      set_new_modes new_modes 0 (length (joints (info_ hw))) hw.

(** ** start, stop, read, write *)

(** [info_.hardware_parameters["robot_ip"]]: the stored address, or the
    empty string, which [operator[]] then stores under the key. *)
Definition robot_ip_of (info : HardwareInfo) : string :=
  default "" (hardware_parameters info !! "robot_ip").

Definition touch_robot_ip (info : HardwareInfo) : HardwareInfo :=
  {| joints := joints info;
     hardware_parameters :=
       <["robot_ip" := robot_ip_of info]> (hardware_parameters info) |}.

(** Lines 246-275: the defaults loop, whose bound is the constant 1. *)
Definition seed_defaults (i : nat) (hw : HW) : outcome HW :=
  let! _p := vec_get (hw_positions_ hw) i in
  let! v := vec_get (hw_velocities_ hw) i in
  let! hw := (if is_nan v
              then let! l := vec_set (hw_velocities_ hw) i 0%float in
                   Normal (set_hw_velocities l hw)
              else Normal hw) in
  let! e := vec_get (hw_efforts_ hw) i in
  let! hw := (if is_nan e
              then let! l := vec_set (hw_efforts_ hw) i 0%float in
                   Normal (set_hw_efforts l hw)
              else Normal hw) in
  let! _cp := vec_get (hw_commands_positions_ hw) i in
  let! cv := vec_get (hw_commands_velocities_ hw) i in
  let! hw := (if is_nan cv
              then let! l := vec_set (hw_commands_velocities_ hw) i 0%float in
                   Normal (set_hw_commands_velocities l hw)
              else Normal hw) in
  let! ce := vec_get (hw_commands_efforts_ hw) i in
  let! hw := (if is_nan ce
              then let! l := vec_set (hw_commands_efforts_ hw) i 0%float in
                   Normal (set_hw_commands_efforts l hw)
              else Normal hw) in
  let! c := vec_set (control_lvl_ hw) i UNDEFINED in
  Normal (set_control_lvl c hw).

(** [motor_positions]: the gripper motor positions in the feedback that
    [base_cyclic_.RefreshFeedback()] returns. *)
Definition start (motor_positions : list float) (hw : HW)
  : outcome (return_type * HW) :=
  let robot_ip := robot_ip_of (info_ hw) in
  let hw := set_info (touch_robot_ip (info_ hw)) hw in
  let hw := call (TcpConnect robot_ip) hw in
  let hw := call (UdpRealtimeConnect robot_ip) hw in
  let hw := call CreateSession hw in
  let hw := call CreateSessionRealTime hw in
  let hw := call RefreshFeedback hw in
  let! gripper_initial_position := vec_get motor_positions 0 in
  let cmd := base_command_ hw in
  let gripper_command :=
    {| mc_position := gripper_initial_position;
       mc_velocity := 0%float;
       mc_force := 100%float |} in
  let hw := set_base_command
              {| frame_id := frame_id cmd;
                 command_id := 0;
                 motor_cmd := push_back (motor_cmd cmd) gripper_command |}
              hw in
  let! hw := seed_defaults 0 hw in
  let hw := set_status STARTED hw in
  let! _lvl := vec_get (control_lvl_ hw) 0 in
  Normal (OK, hw).

Definition stop (hw : HW) : return_type * HW :=
  let hw := call CloseSession hw in
  let hw := call (SetActivationStatus false) hw in
  let hw := call TcpDisconnect hw in
  (OK, set_status STOPPED hw).

(** [fingers]: the finger values in the answer of
    [base_.GetMeasuredGripperMovement]. *)
Definition read (fingers : list float) (hw : HW)
  : outcome (return_type * HW) :=
  let hw := call GetMeasuredGripperMovement hw in
  let! value := vec_get fingers 0 in
  let! p := vec_set (hw_positions_ hw) 0 value in
  Normal (OK, set_hw_positions p hw).

(** Every statement of [write] but the [return] is commented out. *)
Definition write (hw : HW) : return_type * HW := (OK, hw).

(** ** Device descriptions used as examples *)

Definition interface (kind : string) : InterfaceInfo := {| if_name := kind |}.

(** One axis with a position command and position/velocity state. *)
Definition gripper_axis (n : string) : ComponentInfo :=
  {| name := n;
     command_interfaces := [interface HW_IF_POSITION];
     state_interfaces := [interface HW_IF_POSITION; interface HW_IF_VELOCITY] |}.

Definition gripper_info : HardwareInfo :=
  {| joints := [gripper_axis "gripper_joint"]; hardware_parameters := ∅ |}.

Definition two_axis_info : HardwareInfo :=
  {| joints := [gripper_axis "left"; gripper_axis "right"];
     hardware_parameters := ∅ |}.


(** The second state interface is an effort interface. *)
Definition effort_state_info : HardwareInfo :=
  {| joints :=
       [{| name := "gripper_joint";
           command_interfaces := [interface HW_IF_POSITION];
           state_interfaces :=
             [interface HW_IF_POSITION; interface HW_IF_EFFORT] |}];
     hardware_parameters := ∅ |}.

(** No command interface at all. *)
Definition no_command_info : HardwareInfo :=
  {| joints :=
       [{| name := "gripper_joint";
           command_interfaces := [];
           state_interfaces :=
             [interface HW_IF_POSITION; interface HW_IF_VELOCITY] |}];
     hardware_parameters := ∅ |}.

(** ** Predicates of the statements *)

(** Every vector has one slot per joint of the stored description. *)
Definition sized (hw : HW) : Prop :=
  let n := length (joints (info_ hw)) in
  length (hw_positions_ hw) = n /\
  length (hw_velocities_ hw) = n /\
  length (hw_efforts_ hw) = n /\
  length (hw_commands_positions_ hw) = n /\
  length (hw_commands_velocities_ hw) = n /\
  length (hw_commands_efforts_ hw) = n /\
  length (control_lvl_ hw) = n.

(** What the validation loop rejects in one joint. *)
Definition violates (joint : ComponentInfo) : Prop :=
  length (command_interfaces joint) <> 1 \/
  (exists c, command_interfaces joint !! 0 = Some c /\
             if_name c <> HW_IF_POSITION) \/
  length (state_interfaces joint) <> 2 \/
  (exists s, state_interfaces joint !! 0 = Some s /\
             if_name s <> HW_IF_POSITION /\ if_name s <> HW_IF_VELOCITY).

(** Some key of the stop list contains the joint's name. *)
Definition stopped_by (stop_interfaces : list string) (joint : ComponentInfo)
  : bool :=
  existsb (fun key => found_in key (name joint)) stop_interfaces.

(** The key is [name/kind] for a joint of [js] and one of the three kinds
    the start loop tests. *)
Definition resolves (js : list ComponentInfo) (key : string) : bool :=
  existsb
    (fun joint =>
       String.eqb key (interface_key (name joint) HW_IF_POSITION)
       || String.eqb key (interface_key (name joint) HW_IF_VELOCITY)
       || String.eqb key (interface_key (name joint) HW_IF_EFFORT))
    js.

(** The three members the stop loop assigns, set at once. *)
Definition with_commands (v e : list float) (c : list integration_lvl_t)
    (hw : HW) : HW :=
  set_control_lvl c (set_hw_commands_efforts e (set_hw_commands_velocities v hw)).

Definition halt (stop_interfaces : list string) (joint : ComponentInfo)
    (x : float) : float :=
  if stopped_by stop_interfaces joint then 0%float else x.

Definition unlock (stop_interfaces : list string) (joint : ComponentInfo)
    (lvl : integration_lvl_t) : integration_lvl_t :=
  if stopped_by stop_interfaces joint then UNDEFINED else lvl.

(** The state the stop loops reach from a sized state, in closed form. *)
Definition released (stop_interfaces : list string) (hw : HW) : HW :=
  let js := joints (info_ hw) in
  with_commands
    (zip_with (halt stop_interfaces) js (hw_commands_velocities_ hw))
    (zip_with (halt stop_interfaces) js (hw_commands_efforts_ hw))
    (zip_with (unlock stop_interfaces) js (control_lvl_ hw))
    hw.

(** The states a component goes through: it is constructed, the host
    calls its member functions, and between calls the host writes position
    commands through the exported command interface of a joint. *)
Inductive reachable : HW -> Prop :=
  | reach_constructed : reachable constructed
  | reach_configure rc info hw r hw' :
      reachable hw -> configure rc info hw = (r, hw') -> reachable hw'
  | reach_switch start_interfaces stop_interfaces hw r hw' :
      reachable hw ->
      prepare_command_mode_switch start_interfaces stop_interfaces hw
        = Normal (r, hw') ->
      reachable hw'
  | reach_start motor_positions hw r hw' :
      reachable hw -> start motor_positions hw = Normal (r, hw') ->
      reachable hw'
  | reach_stop hw r hw' :
      reachable hw -> stop hw = (r, hw') -> reachable hw'
  | reach_read fingers hw r hw' :
      reachable hw -> read fingers hw = Normal (r, hw') -> reachable hw'
  | reach_write hw r hw' :
      reachable hw -> write hw = (r, hw') -> reachable hw'
  | reach_command i x hw l :
      reachable hw -> vec_set (hw_commands_positions_ hw) i x = Normal l ->
      reachable (set_hw_commands_positions l hw).

(** [n] calls of [write] in a row. *)
Fixpoint write_times (n : nat) (hw : HW) : list return_type * HW :=
  match n with
  | 0 => ([], hw)
  | S n =>
      let (r, hw) := write hw in
      let (rs, hw) := write_times n hw in
      (r :: rs, hw)
  end.

(** ** interfaces_to_string *)

(** [std::endl] writes a line feed. *)
Definition endl : string := String (Ascii.ascii_of_nat 10) EmptyString.

(** [ss << x] *)
Definition put (ss x : string) : string := String.append ss x.

(** One of the two loops of lines 23-26 and 29-32. *)
Fixpoint put_interfaces (interfaces : list string) (ss : string) : string :=
  match interfaces with
  | [] => ss
  | key :: rest => put_interfaces rest (put (put (put ss "  ") key) endl)
  end.

Definition interfaces_to_string (start_interfaces stop_interfaces : list string)
  : string :=
  let ss := EmptyString in
  let ss := put (put (put (put ss "Start interfaces: ") endl) "[") endl in
  let ss := put_interfaces start_interfaces ss in
  let ss := put (put ss "]") endl in
  let ss := put (put (put (put ss "Stop interfaces: ") endl) "[") endl in
  let ss := put_interfaces stop_interfaces ss in
  let ss := put (put ss "]") endl in
  ss.

(** ** export_state_interfaces, export_command_interfaces *)

(** The vectors whose elements are handed out by address. *)
Inductive storage := Positions | Velocities | CommandsPositions.

(** A [StateInterface] or [CommandInterface] of the framework: the joint
    name, the interface name, and the address of the slot, which is a
    vector and an index into it. *)
Record Handle := {
  handle_name : string;
  handle_interface : string;
  handle_storage : storage;
  handle_index : nat
}.

(** [&v[i]] *)
Definition address_of {A} (v : list A) (i : nat) : outcome nat :=
  let! _x := vec_get v i in
  Normal i.

(** The loop of lines 113-119, from joint [i] on. *)
Fixpoint export_state_from (i : nat) (js : list ComponentInfo) (hw : HW)
    (state_interfaces : list Handle) : outcome (list Handle) :=
  match js with
  | [] => Normal state_interfaces
  | joint :: rest =>
      let! p := address_of (hw_positions_ hw) i in
      let state_interfaces :=
        push_back state_interfaces
          {| handle_name := name joint; handle_interface := HW_IF_POSITION;
             handle_storage := Positions; handle_index := p |} in
      let! v := address_of (hw_velocities_ hw) i in
      let state_interfaces :=
        push_back state_interfaces
          {| handle_name := name joint; handle_interface := HW_IF_VELOCITY;
             handle_storage := Velocities; handle_index := v |} in
      export_state_from (S i) rest hw state_interfaces
  end.

Definition export_state_interfaces (hw : HW) : outcome (list Handle) :=
  export_state_from 0 (joints (info_ hw)) hw [].

(** The loop of lines 127-131, from joint [i] on. *)
Fixpoint export_command_from (i : nat) (js : list ComponentInfo) (hw : HW)
    (command_interfaces : list Handle) : outcome (list Handle) :=
  match js with
  | [] => Normal command_interfaces
  | joint :: rest =>
      let! p := address_of (hw_commands_positions_ hw) i in
      let command_interfaces :=
        push_back command_interfaces
          {| handle_name := name joint; handle_interface := HW_IF_POSITION;
             handle_storage := CommandsPositions; handle_index := p |} in
      export_command_from (S i) rest hw command_interfaces
  end.

Definition export_command_interfaces (hw : HW) : outcome (list Handle) :=
  export_command_from 0 (joints (info_ hw)) hw [].

(** The framework's handle accessors: the full name under which the host
    lists an interface in a mode-switch request, and the value behind the
    address. *)
Definition full_name (h : Handle) : string :=
  interface_key (handle_name h) (handle_interface h).

Definition get_value (hw : HW) (h : Handle) : option float :=
  match handle_storage h with
  | Positions => hw_positions_ hw !! handle_index h
  | Velocities => hw_velocities_ hw !! handle_index h
  | CommandsPositions => hw_commands_positions_ hw !! handle_index h
  end.

(** The handles the two export loops build for joint [i]. *)
Definition position_command (i : nat) (joint : ComponentInfo) : Handle :=
  {| handle_name := name joint; handle_interface := HW_IF_POSITION;
     handle_storage := CommandsPositions; handle_index := i |}.

Definition position_state (i : nat) (joint : ComponentInfo) : Handle :=
  {| handle_name := name joint; handle_interface := HW_IF_POSITION;
     handle_storage := Positions; handle_index := i |}.

Definition velocity_state (i : nat) (joint : ComponentInfo) : Handle :=
  {| handle_name := name joint; handle_interface := HW_IF_VELOCITY;
     handle_storage := Velocities; handle_index := i |}.

(** ** Further predicates of the statements *)

(** The shape [configure] accepts in a joint. *)
Definition accepted_shape (joint : ComponentInfo) : Prop :=
  exists c s0 s1,
    command_interfaces joint = [c] /\ if_name c = HW_IF_POSITION /\
    state_interfaces joint = [s0; s1] /\
    (if_name s0 = HW_IF_POSITION \/ if_name s0 = HW_IF_VELOCITY).

(** [new] has [n] slots; slot [i] holds what [old] held there, or [fill]
    where [old] had no slot. *)
Definition refilled {A} (fill : A) (n : nat) (old new : list A) : Prop :=
  length new = n /\
  forall i, i < n -> new !! i = Some (default fill (old !! i)).

(** A slot that has never held a measurement or a command. *)
Definition unset_or_zero (x : float) : Prop :=
  is_nan x = true \/ x = 0%float.

(** What the defaults loop of [start] leaves in a slot. *)
Definition seeded (x : float) : float := if is_nan x then 0%float else x.

(** The state the defaults loop reaches for joint [i], in closed form. *)
Definition seeded_state (i : nat) (hw : HW) : HW :=
  set_control_lvl (<[i := UNDEFINED]> (control_lvl_ hw))
    (set_hw_commands_efforts (alter seeded i (hw_commands_efforts_ hw))
       (set_hw_commands_velocities
          (alter seeded i (hw_commands_velocities_ hw))
          (set_hw_efforts (alter seeded i (hw_efforts_ hw))
             (set_hw_velocities (alter seeded i (hw_velocities_ hw)) hw)))).

(** The motor command [start] adds for the measured position [p]. *)
Definition initial_motor_command (p : float) : MotorCommand :=
  {| mc_position := p; mc_velocity := 0%float; mc_force := 100%float |}.

(** The five calls of [start] and the three calls of [stop]. *)
Definition start_calls (ip : string) : list SessionCall :=
  [TcpConnect ip; UdpRealtimeConnect ip; CreateSession;
   CreateSessionRealTime; RefreshFeedback].

Definition stop_calls : list SessionCall :=
  [CloseSession; SetActivationStatus false; TcpDisconnect].

(** The text of one interface in [interfaces_to_string]. *)
Definition interface_line (key : string) : string :=
  String.append "  " (String.append key endl).

(** No member function stores a measured velocity or effort, a commanded
    velocity or effort other than 0, or a frame or command identifier
    other than 0. *)
Definition never_measured (hw : HW) : Prop :=
  Forall unset_or_zero (hw_velocities_ hw) /\
  Forall unset_or_zero (hw_efforts_ hw) /\
  Forall unset_or_zero (hw_commands_velocities_ hw) /\
  Forall unset_or_zero (hw_commands_efforts_ hw) /\
  frame_id (base_command_ hw) = 0%Z /\
  command_id (base_command_ hw) = 0%Z /\
  Forall (fun m => mc_velocity m = 0%float /\ mc_force m = 100%float)
    (motor_cmd (base_command_ hw)).



(** The lines of a list of interfaces in [interfaces_to_string]. *)
Definition interface_lines (interfaces : list string) : string :=
  foldr (fun key rest => String.append (interface_line key) rest)
    EmptyString interfaces.

(** ** The one-axis gripper, step by step *)

(** [configure] accepts the description; every slot is NaN and the axis is
    at POSITION. *)
Example gripper_configured :
  exists hw,
    configure OK gripper_info constructed = (OK, hw) /\
    status_ hw = CONFIGURED /\
    hw_positions_ hw = [quiet_NaN] /\
    hw_velocities_ hw = [quiet_NaN] /\
    hw_efforts_ hw = [quiet_NaN] /\
    hw_commands_positions_ hw = [quiet_NaN] /\
    hw_commands_velocities_ hw = [quiet_NaN] /\
    hw_commands_efforts_ hw = [quiet_NaN] /\
    control_lvl_ hw = [POSITION].
Proof. eexists. repeat split. Qed.

(** Straight after [configure] the axis counts as taken: a switch to
    position without a stop key is refused. *)
Example gripper_switch_before_start :
  prepare_command_mode_switch ["gripper_joint/position"] []
    (snd (configure OK gripper_info constructed))
  = Normal (ERROR, snd (configure OK gripper_info constructed)).
Proof. vm_compute. reflexivity. Qed.

(** [start] opens the connection, zeroes the unset velocity and effort
    slots of the first axis and releases that axis. *)
Example gripper_started :
  exists hw,
    start [0.5%float] (snd (configure OK gripper_info constructed))
      = Normal (OK, hw) /\
    status_ hw = STARTED /\
    hw_commands_velocities_ hw = [0%float] /\
    hw_commands_efforts_ hw = [0%float] /\
    control_lvl_ hw = [UNDEFINED] /\
    session_log_ hw
      = [TcpConnect ""; UdpRealtimeConnect ""; CreateSession;
         CreateSessionRealTime; RefreshFeedback] /\
    exists hw',
      prepare_command_mode_switch ["gripper_joint/position"] [] hw
        = Normal (OK, hw') /\
      control_lvl_ hw' = [POSITION].
Proof.
  eexists. split; [vm_compute; reflexivity|].
  repeat (split; [reflexivity|]).
  eexists. split; vm_compute; reflexivity.
Qed.

(** Without a joint the uniform-mode check leaves the empty vector. *)
Example no_joint_switch :
  prepare_command_mode_switch [] [] constructed = OutOfRange.
Proof. reflexivity. Qed.

(** ** configure: validation and sizing *)

Lemma joint_ok_true (joint : ComponentInfo) :
  joint_ok joint = true <->
  exists c s0 s1,
    command_interfaces joint = [c] /\ if_name c = HW_IF_POSITION /\
    state_interfaces joint = [s0; s1] /\
    (if_name s0 = HW_IF_POSITION \/ if_name s0 = HW_IF_VELOCITY).
Proof.
  unfold joint_ok. split.
  - destruct (command_interfaces joint) as [|c [|? ?]]; try discriminate.
    destruct (String.eqb_spec (if_name c) HW_IF_POSITION) as [Hc|Hc];
      simpl; try discriminate.
    destruct (state_interfaces joint) as [|s0 [|s1 [|? ?]]]; try discriminate.
    destruct (String.eqb_spec (if_name s0) HW_IF_POSITION) as [Hp|Hp]; simpl.
    + intros _. exists c, s0, s1. auto.
    + destruct (String.eqb_spec (if_name s0) HW_IF_VELOCITY) as [Hv|Hv];
        simpl; try discriminate.
      intros _. exists c, s0, s1. auto.
  - intros (c & s0 & s1 & -> & Hc & -> & Hs).
    rewrite Hc. simpl.
    destruct Hs as [-> | ->]; reflexivity.
Qed.

Lemma violates_not_ok (joint : ComponentInfo) :
  violates joint -> joint_ok joint = false.
Proof.
  intros Hv. destruct (joint_ok joint) eqn:Hok; [|reflexivity].
  apply joint_ok_true in Hok as (c & s0 & s1 & Hc & Hcn & Hs & Hsn).
  exfalso. destruct Hv as [Hv | [(c' & Hl & Hn) | [Hv | (s' & Hl & Hn1 & Hn2)]]].
  - rewrite Hc in Hv. simpl in Hv. congruence.
  - rewrite Hc in Hl. simpl in Hl. congruence.
  - rewrite Hs in Hv. simpl in Hv. congruence.
  - rewrite Hs in Hl. simpl in Hl. destruct Hsn; congruence.
Qed.

Lemma validate_joints_error (js : list ComponentInfo) :
  Exists violates js -> validate_joints js = ERROR.
Proof.
  induction js as [|joint rest IH]; intros Hex.
  - inversion Hex.
  - simpl. destruct (joint_ok joint) eqn:Hok; [|reflexivity].
    apply IH. inversion Hex as [? ? Hv | ? ? Hr]; subst; [|exact Hr].
    apply violates_not_ok in Hv. congruence.
Qed.

Lemma validate_joints_ok (js : list ComponentInfo) :
  validate_joints js = OK <-> Forall (fun joint => joint_ok joint = true) js.
Proof.
  induction js as [|joint rest IH]; simpl.
  - split; [constructor | reflexivity].
  - destruct (joint_ok joint) eqn:Hok.
    + rewrite IH. split; [intros H; constructor; assumption|].
      intros H. inversion H; assumption.
    + split; [discriminate|]. intros H. inversion H; congruence.
Qed.

Lemma size_storage_sized (info : HardwareInfo) (hw : HW) :
  sized (size_storage info hw) /\ info_ (size_storage info hw) = info.
Proof.
  unfold sized, size_storage. simpl.
  rewrite !length_resize. repeat split; reflexivity.
Qed.

Lemma sized_set_status (s : status) (hw : HW) :
  sized hw -> sized (set_status s hw).
Proof. unfold sized. simpl. tauto. Qed.

(** Whenever [configure_default] succeeds, [configure] leaves the storage
    sized to the description, whether it then accepts or rejects it. *)
Lemma configure_sized (info : HardwareInfo) (hw hw' : HW) (r : return_type) :
  configure OK info hw = (r, hw') -> sized hw' /\ info_ hw' = info.
Proof.
  unfold configure. simpl.
  destruct (validate_joints (joints info)); intros H; inversion H; subst.
  - destruct (size_storage_sized info (set_status CONFIGURED (set_info info hw)))
      as [Hs Hi].
    split; [apply sized_set_status; exact Hs | exact Hi].
  - apply size_storage_sized.
Qed.

Lemma configure_accepts (info : HardwareInfo) (hw : HW) :
  Forall (fun joint => joint_ok joint = true) (joints info) ->
  fst (configure OK info hw) = OK.
Proof.
  intros Hok. unfold configure. simpl.
  apply validate_joints_ok in Hok. rewrite Hok. reflexivity.
Qed.

(** C2 (as the code has it): when [configure] returns OK on a component
    whose mode table is still empty, as after construction, the mode table
    has one entry per axis of the description and every entry is POSITION. *)
Theorem configure_modes_position
    (rc : return_type) (info : HardwareInfo) (hw hw' : HW) :
  control_lvl_ hw = [] ->
  configure rc info hw = (OK, hw') ->
  control_lvl_ hw' = replicate (length (joints info)) POSITION.
Proof.
  intros Hempty. unfold configure.
  destruct rc; simpl; [|discriminate].
  destruct (validate_joints (joints info)); [|discriminate].
  intros H. inversion H; subst. simpl.
  rewrite Hempty. apply resize_nil.
Qed.

Lemma configure_modes_position_witness :
  control_lvl_ (snd (configure OK gripper_info constructed)) = [POSITION].
Proof.
  apply (configure_modes_position OK gripper_info constructed).
  - reflexivity.
  - reflexivity.
Defined.

(** C2, the claim as stated fails: the one-axis gripper description is
    accepted from the constructed state, and the mode of its axis is then
    POSITION, not UNDEFINED. *)
Lemma configure_modes_not_undefined :
  exists hw',
    configure OK gripper_info constructed = (OK, hw') /\
    ~ (forall i lvl, control_lvl_ hw' !! i = Some lvl -> lvl = UNDEFINED).
Proof.
  eexists. split; [reflexivity|].
  intros H. specialize (H 0 POSITION eq_refl). discriminate.
Qed.

(** C6, the code at the failing input: a description whose second state
    interface is an effort interface is accepted. *)
Theorem configure_accepts_effort_state :
  fst (configure OK effort_state_info constructed) = OK.
Proof. reflexivity. Qed.

(** C7 (as the code has it): a description in which some joint breaks a
    rule of the validation loop is rejected; when [configure_default] had
    succeeded, the storage has by then been resized to the number of
    joints of the rejected description. *)
Theorem configure_rejects_after_sizing
    (rc : return_type) (info : HardwareInfo) (hw : HW) :
  Exists violates (joints info) ->
  fst (configure rc info hw) = ERROR /\
  (rc = OK ->
   sized (snd (configure rc info hw)) /\
   info_ (snd (configure rc info hw)) = info).
Proof.
  intros Hex. split.
  - unfold configure. destruct rc; simpl; [|reflexivity].
    rewrite (validate_joints_error _ Hex). reflexivity.
  - intros ->. apply (configure_sized info hw _ (fst (configure OK info hw))).
    destruct (configure OK info hw); reflexivity.
Qed.

Lemma configure_rejects_after_sizing_witness :
  fst (configure OK no_command_info constructed) = ERROR /\
  (OK = OK ->
   sized (snd (configure OK no_command_info constructed)) /\
   info_ (snd (configure OK no_command_info constructed)) = no_command_info).
Proof.
  apply (configure_rejects_after_sizing OK no_command_info constructed).
  apply Exists_cons_hd. left. simpl. lia.
Defined.

(** C7, the claim as stated fails: the description without a command
    interface is rejected, yet the state and command vectors, empty
    before the call, hold one slot afterwards. *)
Lemma configure_sizes_before_validating :
  exists hw',
    configure OK no_command_info constructed = (ERROR, hw') /\
    hw_positions_ constructed = [] /\
    hw_commands_positions_ constructed = [] /\
    length (hw_positions_ hw') = 1 /\
    length (hw_commands_positions_ hw') = 1 /\
    length (control_lvl_ hw') = 1.
Proof. eexists. repeat split. Qed.

(** ** Vectors *)

Lemma vec_set_middle {A} (pre post : list A) (y x : A) :
  vec_set (pre ++ y :: post) (length pre) x = Normal (pre ++ x :: post).
Proof.
  unfold vec_set. rewrite length_app. simpl.
  destruct (decide (length pre < length pre + S (length post))) as [_|Hn];
    [|lia].
  rewrite <- (Nat.add_0_r (List.length pre)) at 1.
  rewrite insert_app_r. reflexivity.
Qed.

Lemma vec_get_middle {A} (pre post : list A) (y : A) :
  vec_get (pre ++ y :: post) (length pre) = Normal y.
Proof. unfold vec_get. rewrite list_lookup_middle; reflexivity. Qed.

Lemma snoc_app {A} (pre post : list A) (x : A) :
  (pre ++ [x]) ++ post = pre ++ x :: post.
Proof. rewrite <- app_assoc. reflexivity. Qed.

Lemma with_commands_twice v e c v' e' c' (hw : HW) :
  with_commands v e c (with_commands v' e' c' hw) = with_commands v e c hw.
Proof. reflexivity. Qed.

Lemma with_commands_same (hw : HW) :
  with_commands (hw_commands_velocities_ hw) (hw_commands_efforts_ hw)
    (control_lvl_ hw) hw = hw.
Proof. destruct hw; reflexivity. Qed.

(** ** The start loop *)

Lemma resolve_key_app key js : forall acc,
  resolve_key key js acc = acc ++ resolve_key key js [].
Proof.
  induction js as [|joint rest IH]; intros acc; simpl.
  - rewrite app_nil_r. reflexivity.
  - unfold push_back.
    destruct (String.eqb key (interface_key (name joint) HW_IF_POSITION)),
      (String.eqb key (interface_key (name joint) HW_IF_VELOCITY)),
      (String.eqb key (interface_key (name joint) HW_IF_EFFORT));
      simpl;
      repeat match goal with
        | |- context [resolve_key key rest (?a :: ?l)] =>
            rewrite (IH (a :: l))
        | |- context [resolve_key key rest (?a ++ ?l)] =>
            rewrite (IH (a ++ l))
        end;
      rewrite <- ?app_assoc; try reflexivity; apply IH.
Qed.

Lemma resolve_key_unresolved key js acc :
  resolves js key = false -> resolve_key key js acc = acc.
Proof.
  revert acc. induction js as [|joint rest IH]; intros acc; simpl.
  - reflexivity.
  - intros H. apply orb_false_iff in H as [H Hrest].
    apply orb_false_iff in H as [H He].
    apply orb_false_iff in H as [Hp Hv].
    rewrite Hp, Hv, He. apply IH, Hrest.
Qed.

Lemma resolve_key_no_joint key acc : resolve_key key [] acc = acc.
Proof. reflexivity. Qed.

Lemma resolve_start_no_joint start : forall acc,
  resolve_start start [] acc = acc.
Proof. induction start as [|key rest IH]; intros acc; simpl; auto. Qed.

Lemma resolve_start_app start1 start2 js : forall acc,
  resolve_start (start1 ++ start2) js acc
  = resolve_start start2 js (resolve_start start1 js acc).
Proof.
  induction start1 as [|key rest IH]; intros acc; simpl; [reflexivity|].
  apply IH.
Qed.

Lemma resolve_start_skip pre key post js acc :
  resolves js key = false ->
  resolve_start (pre ++ key :: post) js acc
  = resolve_start (pre ++ post) js acc.
Proof.
  intros H. rewrite !resolve_start_app. simpl.
  rewrite (resolve_key_unresolved _ _ _ H). reflexivity.
Qed.

(** ** The stop loops *)

Lemma stop_joint_middle (hw : HW) vp v vm ep e em cp c cm :
  hw_commands_velocities_ hw = vp ++ v :: vm ->
  hw_commands_efforts_ hw = ep ++ e :: em ->
  control_lvl_ hw = cp ++ c :: cm ->
  length ep = length vp -> length cp = length vp ->
  stop_joint (length vp) hw
  = Normal (with_commands (vp ++ 0%float :: vm) (ep ++ 0%float :: em)
              (cp ++ UNDEFINED :: cm) hw).
Proof.
  intros Hv He Hc Hle Hlc. unfold stop_joint.
  rewrite Hv, vec_set_middle. simpl.
  rewrite He, <- Hle, vec_set_middle. simpl.
  rewrite Hc, Hle, <- Hlc, vec_set_middle. simpl.
  reflexivity.
Qed.

Lemma stopped_by_one key joint :
  stopped_by [key] joint = found_in key (name joint).
Proof. unfold stopped_by. simpl. apply orb_false_r. Qed.

Lemma stop_key_middle key js : forall (hw : HW) vp vm ep em cp cm,
  hw_commands_velocities_ hw = vp ++ vm ->
  hw_commands_efforts_ hw = ep ++ em ->
  control_lvl_ hw = cp ++ cm ->
  length ep = length vp -> length cp = length vp ->
  length vm = length js -> length em = length js -> length cm = length js ->
  stop_key key (length vp) js hw
  = Normal (with_commands (vp ++ zip_with (halt [key]) js vm)
              (ep ++ zip_with (halt [key]) js em)
              (cp ++ zip_with (unlock [key]) js cm) hw).
Proof.
  induction js as [|joint rest IH];
    intros hw vp vm ep em cp cm Hv He Hc Hle Hlc Hvm Hem Hcm.
  - destruct vm, em, cm; try discriminate. simpl.
    rewrite !app_nil_r in *. rewrite <- Hv, <- He, <- Hc.
    rewrite with_commands_same. reflexivity.
  - destruct vm as [|v vm]; [discriminate|].
    destruct em as [|e em]; [discriminate|].
    destruct cm as [|c cm]; [discriminate|].
    simpl in Hvm, Hem, Hcm.
    simpl. unfold halt, unlock. rewrite stopped_by_one.
    destruct (found_in key (name joint)).
    + rewrite (stop_joint_middle hw vp v vm ep e em cp c cm) by assumption.
      simpl.
      replace (S (length vp)) with (length (vp ++ [0%float]))
        by (rewrite length_app; simpl; lia).
      rewrite (IH _ (vp ++ [0%float]) vm (ep ++ [0%float]) em
                 (cp ++ [UNDEFINED]) cm);
        simpl; rewrite ?snoc_app, ?length_app; simpl; try lia; reflexivity.
    + simpl.
      replace (S (length vp)) with (length (vp ++ [v]))
        by (rewrite length_app; simpl; lia).
      rewrite (IH hw (vp ++ [v]) vm (ep ++ [e]) em (cp ++ [c]) cm);
        rewrite ?snoc_app, ?length_app; simpl; try lia;
        try assumption; reflexivity.
Qed.

Lemma halt_cons key rest joint x :
  halt rest joint (halt [key] joint x) = halt (key :: rest) joint x.
Proof.
  unfold halt. rewrite stopped_by_one. unfold stopped_by. simpl.
  destruct (found_in key (name joint)); simpl;
    destruct (existsb _ rest); reflexivity.
Qed.

Lemma unlock_cons key rest joint lvl :
  unlock rest joint (unlock [key] joint lvl) = unlock (key :: rest) joint lvl.
Proof.
  unfold unlock. rewrite stopped_by_one. unfold stopped_by. simpl.
  destruct (found_in key (name joint)); simpl;
    destruct (existsb _ rest); reflexivity.
Qed.

Lemma zip_with_twice {A B} (f g h : A -> B -> B) (l : list A) :
  (forall a b, g a (f a b) = h a b) ->
  forall k, zip_with g l (zip_with f l k) = zip_with h l k.
Proof.
  intros Hfg. induction l as [|a l IH]; intros [|b k]; simpl; try reflexivity.
  rewrite Hfg, IH. reflexivity.
Qed.

Lemma zip_with_keep {A B} (f : A -> B -> B) (l : list A) :
  (forall a b, f a b = b) ->
  forall k, length k = length l -> zip_with f l k = k.
Proof.
  intros Hf. induction l as [|a l IH]; intros [|b k]; simpl;
    try discriminate; try reflexivity.
  intros Hlen. rewrite Hf, IH by lia. reflexivity.
Qed.

Lemma released_sized stop (hw : HW) : sized hw -> sized (released stop hw).
Proof.
  unfold sized, released. simpl.
  intros (Hp & Hv & He & Hcp & Hcv & Hce & Hc).
  rewrite !length_zip_with, Hcv, Hce, Hc.
  repeat split; try assumption; lia.
Qed.

Lemma released_nil (hw : HW) : sized hw -> released [] hw = hw.
Proof.
  intros (_ & _ & _ & _ & Hcv & Hce & Hc). unfold released.
  rewrite !zip_with_keep by (reflexivity || assumption).
  apply with_commands_same.
Qed.

(** From a sized state the stop loops touch no slot outside the vectors
    and end in [released]. *)
Lemma stop_motion_released stop : forall hw : HW,
  sized hw -> stop_motion stop hw = Normal (released stop hw).
Proof.
  induction stop as [|key rest IH]; intros hw Hs.
  - simpl. rewrite released_nil by assumption. reflexivity.
  - pose proof Hs as (_ & _ & _ & _ & Hcv & Hce & Hc).
    simpl.
    pose proof (stop_key_middle key (joints (info_ hw)) hw [] _ [] _ [] _
                  eq_refl eq_refl eq_refl eq_refl eq_refl Hcv Hce Hc) as Hk.
    simpl in Hk. rewrite Hk. simpl.
    change (with_commands
              (zip_with (halt [key]) (joints (info_ hw))
                 (hw_commands_velocities_ hw))
              (zip_with (halt [key]) (joints (info_ hw))
                 (hw_commands_efforts_ hw))
              (zip_with (unlock [key]) (joints (info_ hw)) (control_lvl_ hw))
              hw)
      with (released [key] hw).
    rewrite IH by (apply released_sized; assumption).
    f_equal. unfold released at 1. simpl.
    rewrite !(zip_with_twice _ _ (halt (key :: rest)))
      by (intros; apply halt_cons).
    rewrite (zip_with_twice _ _ (unlock (key :: rest)))
      by (intros; apply unlock_cons).
    reflexivity.
Qed.

(** ** The commit loop *)

Lemma set_control_lvl_twice c c' (hw : HW) :
  set_control_lvl c (set_control_lvl c' hw) = set_control_lvl c hw.
Proof. reflexivity. Qed.

Lemma set_control_lvl_same (hw : HW) :
  set_control_lvl (control_lvl_ hw) hw = hw.
Proof. destruct hw; reflexivity. Qed.

(** When every remaining entry is UNDEFINED the loop runs to its end and
    overwrites the remaining entries with the new modes. *)
Lemma set_new_modes_free : forall todo new_modes (hw : HW) cp cm np nm,
  control_lvl_ hw = cp ++ cm -> new_modes = np ++ nm ->
  length np = length cp -> length cm = todo -> length nm = todo ->
  Forall (eq UNDEFINED) cm ->
  set_new_modes new_modes (length cp) todo hw
  = Normal (OK, set_control_lvl (cp ++ nm) hw).
Proof.
  induction todo as [|todo IH];
    intros new_modes hw cp cm np nm Hc Hn Hlp Hcm Hnm Hall.
  - destruct cm, nm; try discriminate. simpl.
    rewrite app_nil_r in *. rewrite <- Hc, set_control_lvl_same. reflexivity.
  - destruct cm as [|c cm]; [discriminate|].
    destruct nm as [|n nm]; [discriminate|].
    inversion Hall as [|? ? Hu Hrest]; subst.
    cbn [set_new_modes].
    rewrite Hc, vec_get_middle. cbn [bind lvl_eqb negb].
    rewrite <- Hlp at 1. rewrite vec_get_middle. cbn [bind].
    rewrite vec_set_middle. cbn [bind].
    replace (S (length cp)) with (length (cp ++ [n]))
      by (rewrite length_app; simpl; lia).
    rewrite (IH (np ++ n :: nm) _ (cp ++ [n]) cm (np ++ [n]) nm);
      rewrite ?snoc_app, ?length_app; simpl; try lia;
      try reflexivity; try assumption.
    injection Hcm; auto. injection Hnm; auto.
Qed.

(** With enough entries on both sides the loop stays inside the vectors. *)
Lemma set_new_modes_in_range new_modes : forall todo i (hw : HW),
  i + todo <= length (control_lvl_ hw) ->
  i + todo <= length new_modes ->
  exists r hw', set_new_modes new_modes i todo hw = Normal (r, hw').
Proof.
  induction todo as [|todo IH]; intros i hw Hc Hn.
  - simpl. eauto.
  - cbn [set_new_modes]. unfold vec_get.
    destruct (control_lvl_ hw !! i) as [lvl|] eqn:El;
      [|apply lookup_ge_None in El; lia].
    cbn [bind]. destruct (negb (lvl_eqb lvl UNDEFINED)); [eauto|].
    destruct (new_modes !! i) as [mode|] eqn:Em;
      [|apply lookup_ge_None in Em; lia].
    cbn [bind]. unfold vec_set.
    destruct (decide (i < length (control_lvl_ hw))); [|lia].
    cbn [bind]. apply IH; simpl; rewrite ?length_insert; lia.
Qed.

(** ** The uniform-mode check *)

Lemma lvl_eqb_eq (a b : integration_lvl_t) : lvl_eqb a b = true <-> a = b.
Proof. destruct a, b; simpl; split; congruence. Qed.

Lemma forallb_same (m : integration_lvl_t) (l : list integration_lvl_t) :
  Forall (eq m) l -> forallb (fun mode => lvl_eqb mode m) l = true.
Proof.
  induction 1 as [|x l Hx _ IH]; simpl; [reflexivity|].
  subst x. rewrite IH. destruct m; reflexivity.
Qed.

Lemma all_equal_first_uniform (m : integration_lvl_t) new_modes :
  m ∈ new_modes -> Forall (eq m) new_modes ->
  all_equal_first new_modes = Normal true.
Proof.
  intros Hin Hall. destruct new_modes as [|first others].
  - inversion Hin.
  - simpl. f_equal. inversion Hall as [|? ? Hf Ho]; subst first.
    apply forallb_same. assumption.
Qed.

Lemma all_equal_first_nonempty new_modes :
  new_modes <> [] -> exists same, all_equal_first new_modes = Normal same.
Proof. destruct new_modes; [congruence|]. simpl. eauto. Qed.

(** ** prepare_command_mode_switch as a whole *)

(** The request passes both checks, and the stop loops leave every axis
    UNDEFINED: the switch commits the new modes. *)
Lemma switch_commits start stop (hw : HW) :
  let new_modes := resolve_start start (joints (info_ hw)) [] in
  sized hw ->
  length new_modes = length (joints (info_ hw)) ->
  all_equal_first new_modes = Normal true ->
  Forall (eq UNDEFINED) (control_lvl_ (released stop hw)) ->
  prepare_command_mode_switch start stop hw
  = Normal (OK, set_control_lvl new_modes (released stop hw)).
Proof.
  intros new_modes Hs Hlen Hsame Hfree.
  unfold prepare_command_mode_switch. fold new_modes.
  rewrite Hlen, Nat.eqb_refl. cbn [negb].
  rewrite Hsame. cbn [bind negb].
  rewrite (stop_motion_released stop hw Hs). cbn [bind].
  pose proof (released_sized stop hw Hs) as (_ & _ & _ & _ & _ & _ & Hc).
  change (joints (info_ (released stop hw))) with (joints (info_ hw)) in *.
  apply (set_new_modes_free _ new_modes (released stop hw) []
           (control_lvl_ (released stop hw)) [] new_modes);
    try reflexivity; try assumption.
Qed.

Lemma unlock_free stop js : forall lvls,
  Forall (eq UNDEFINED) lvls ->
  Forall (eq UNDEFINED) (zip_with (unlock stop) js lvls).
Proof.
  induction js as [|joint rest IH]; intros [|lvl lvls] Hall; simpl;
    try constructor.
  - inversion Hall; subst. unfold unlock.
    destruct (stopped_by stop joint); reflexivity.
  - inversion Hall; subst. apply IH. assumption.
Qed.

Lemma unlock_all stop js : forall lvls,
  Forall (fun joint => stopped_by stop joint = true) js ->
  Forall (eq UNDEFINED) (zip_with (unlock stop) js lvls).
Proof.
  induction js as [|joint rest IH]; intros [|lvl lvls] Hall; simpl;
    try constructor.
  - inversion Hall as [|? ? Hj Hr]; subst. unfold unlock. rewrite Hj.
    reflexivity.
  - inversion Hall; subst. apply IH. assumption.
Qed.

(** ** Sizes are invariant *)

Lemma vec_set_length {A} (v l : list A) (i : nat) (x : A) :
  vec_set v i x = Normal l -> length l = length v.
Proof.
  unfold vec_set. destruct (decide (i < length v)); [|discriminate].
  intros H. inversion H. apply length_insert.
Qed.

Lemma set_new_modes_sized new_modes : forall todo i (hw hw' : HW) r,
  set_new_modes new_modes i todo hw = Normal (r, hw') ->
  sized hw -> sized hw'.
Proof.
  induction todo as [|todo IH]; intros i hw hw' r Hrun Hs.
  - inversion Hrun; subst. exact Hs.
  - cbn [set_new_modes] in Hrun.
    destruct (vec_get (control_lvl_ hw) i) as [lvl|]; [|discriminate].
    cbn [bind] in Hrun.
    destruct (negb (lvl_eqb lvl UNDEFINED)).
    + inversion Hrun; subst. exact Hs.
    + destruct (vec_get new_modes i) as [mode|]; [|discriminate].
      cbn [bind] in Hrun.
      destruct (vec_set (control_lvl_ hw) i mode) as [c|] eqn:Hc;
        [|discriminate].
      cbn [bind] in Hrun. apply (IH _ _ _ _ Hrun).
      apply vec_set_length in Hc.
      destruct Hs as (? & ? & ? & ? & ? & ? & ?).
      unfold sized. simpl. rewrite Hc. repeat split; assumption.
Qed.

Lemma switch_sized start stop (hw hw' : HW) r :
  prepare_command_mode_switch start stop hw = Normal (r, hw') ->
  sized hw -> sized hw'.
Proof.
  unfold prepare_command_mode_switch. intros Hrun Hs.
  destruct (negb _).
  - inversion Hrun; subst. exact Hs.
  - destruct (all_equal_first _) as [same|]; [|discriminate].
    cbn [bind] in Hrun. destruct (negb same).
    + inversion Hrun; subst. exact Hs.
    + rewrite (stop_motion_released stop hw Hs) in Hrun.
      cbn [bind] in Hrun.
      apply (set_new_modes_sized _ _ _ _ _ _ Hrun).
      apply released_sized. exact Hs.
Qed.

Ltac step_sized H :=
  match type of H with
  | context [vec_get ?v ?i] =>
      destruct (vec_get v i); cbn [bind] in H; try discriminate
  | context [vec_set ?v ?i ?x] =>
      let E := fresh "E" in
      destruct (vec_set v i x) eqn:E; cbn [bind] in H; try discriminate;
      apply vec_set_length in E
  | context [if is_nan ?x then _ else _] =>
      destruct (is_nan x); cbn [bind] in H
  end.

Lemma seed_defaults_sized i (hw hw' : HW) :
  seed_defaults i hw = Normal hw' -> sized hw -> sized hw'.
Proof.
  unfold seed_defaults, sized. intros Hrun (? & ? & ? & ? & ? & ? & ?).
  repeat (step_sized Hrun; simpl in Hrun).
  all: inversion Hrun; subst; simpl; repeat split; congruence.
Qed.

Lemma bind_Normal {A B} (o : outcome A) (k : A -> outcome B) (b : B) :
  bind o k = Normal b -> exists a, o = Normal a /\ k a = Normal b.
Proof. destruct o as [a|]; [eauto | discriminate]. Qed.

Lemma sized_session (hw hw2 : HW) :
  joints (info_ hw2) = joints (info_ hw) ->
  hw_positions_ hw2 = hw_positions_ hw ->
  hw_velocities_ hw2 = hw_velocities_ hw ->
  hw_efforts_ hw2 = hw_efforts_ hw ->
  hw_commands_positions_ hw2 = hw_commands_positions_ hw ->
  hw_commands_velocities_ hw2 = hw_commands_velocities_ hw ->
  hw_commands_efforts_ hw2 = hw_commands_efforts_ hw ->
  control_lvl_ hw2 = control_lvl_ hw ->
  sized hw -> sized hw2.
Proof.
  unfold sized. intros -> -> -> -> -> -> -> ->. tauto.
Qed.

Lemma start_sized motor_positions (hw hw' : HW) r :
  start motor_positions hw = Normal (r, hw') -> sized hw -> sized hw'.
Proof.
  unfold start. cbv zeta. intros Hrun Hs.
  apply bind_Normal in Hrun as (g & _ & Hrun).
  apply bind_Normal in Hrun as (hw1 & Hseed & Hrun).
  apply bind_Normal in Hrun as (lvl & _ & Hrun).
  injection Hrun as _ <-. apply sized_set_status.
  apply (seed_defaults_sized _ _ _ Hseed).
  apply (sized_session hw); try reflexivity. exact Hs.
Qed.

Lemma read_sized fingers (hw hw' : HW) r :
  read fingers hw = Normal (r, hw') -> sized hw -> sized hw'.
Proof.
  unfold read, sized. intros Hrun (? & ? & ? & ? & ? & ? & ?).
  repeat (step_sized Hrun; simpl in Hrun).
  inversion Hrun; subst; simpl. repeat split; congruence.
Qed.

(** Every state the component goes through is sized. *)
Lemma reachable_sized (hw : HW) : reachable hw -> sized hw.
Proof.
  induction 1 as
    [ | rc info hw r hw' _ IH Hrun | start stop hw r hw' _ IH Hrun
      | mp hw r hw' _ IH Hrun | hw r hw' _ IH Hrun
      | fingers hw r hw' _ IH Hrun | hw r hw' _ IH Hrun
      | i x hw l _ IH Hset ].
  - repeat split.
  - destruct rc.
    + apply (configure_sized info hw hw' r Hrun).
    + inversion Hrun; subst. exact IH.
  - apply (switch_sized _ _ _ _ _ Hrun IH).
  - apply (start_sized _ _ _ _ Hrun IH).
  - inversion Hrun; subst. apply sized_set_status. exact IH.
  - apply (read_sized _ _ _ _ Hrun IH).
  - inversion Hrun; subst. exact IH.
  - apply vec_set_length in Hset.
    destruct IH as (? & ? & ? & ? & ? & ? & ?).
    unfold sized. simpl. rewrite Hset. repeat split; assumption.
Qed.

(** C1 (as the code has it): a request that is rejected because the number
    of resolved start entries differs from the number of axes, or because
    the resolved modes are not all the same, returns ERROR and leaves the
    mode table, the commanded-velocity and commanded-effort slots, and
    the rest of the state as they were. *)
Theorem rejected_by_checks_unchanged (start stop : list string) (hw : HW) :
  let new_modes := resolve_start start (joints (info_ hw)) [] in
  length new_modes <> length (joints (info_ hw)) \/
  all_equal_first new_modes = Normal false ->
  exists hw',
    prepare_command_mode_switch start stop hw = Normal (ERROR, hw') /\
    control_lvl_ hw' = control_lvl_ hw /\
    hw_commands_velocities_ hw' = hw_commands_velocities_ hw /\
    hw_commands_efforts_ hw' = hw_commands_efforts_ hw /\
    hw' = hw.
Proof.
  intros new_modes Hrej. exists hw.
  split; [|repeat split; reflexivity].
  unfold prepare_command_mode_switch. fold new_modes.
  destruct (Nat.eqb_spec (length new_modes) (length (joints (info_ hw))))
    as [Heq|Hne]; cbn [negb]; [|reflexivity].
  destruct Hrej as [Hne|Hmixed]; [contradiction|].
  rewrite Hmixed. reflexivity.
Qed.

Lemma rejected_by_checks_unchanged_witness :
  exists hw',
    prepare_command_mode_switch [] ["gripper_joint/position"]
      (snd (configure OK gripper_info constructed)) = Normal (ERROR, hw') /\
    control_lvl_ hw' = [POSITION] /\
    hw' = snd (configure OK gripper_info constructed).
Proof.
  destruct (rejected_by_checks_unchanged [] ["gripper_joint/position"]
              (snd (configure OK gripper_info constructed)))
    as (hw' & Hrun & Hc & _ & _ & Hsame).
  - left. simpl. lia.
  - exists hw'. split; [exact Hrun|]. split; [|exact Hsame].
    rewrite Hc. reflexivity.
Defined.

(** C1, the claim as stated fails.  On the configured two-axis device, a
    request that starts both axes and stops only the left one is rejected
    after the left axis's commanded velocity and effort have been zeroed.
    On the same device after [start], where only the first axis has been
    released, the request that starts both axes is rejected after the
    first axis's mode has been overwritten. *)
Lemma rejected_switch_changes_state :
  (exists hw',
     prepare_command_mode_switch
       ["left/position"; "right/position"] ["left/position"]
       (snd (configure OK two_axis_info constructed)) = Normal (ERROR, hw') /\
     hw_commands_velocities_ (snd (configure OK two_axis_info constructed))
       = [nan; nan] /\
     hw_commands_velocities_ hw' = [0%float; nan] /\
     hw_commands_efforts_ hw' = [0%float; nan] /\
     hw_commands_velocities_ hw'
       <> hw_commands_velocities_ (snd (configure OK two_axis_info constructed)))
  /\
  (exists hw1 hw',
     start [0%float] (snd (configure OK two_axis_info constructed))
       = Normal (OK, hw1) /\
     prepare_command_mode_switch ["left/position"; "right/position"] [] hw1
       = Normal (ERROR, hw') /\
     control_lvl_ hw1 = [UNDEFINED; POSITION] /\
     control_lvl_ hw' = [POSITION; POSITION]).
Proof.
  split.
  - eexists. split; [vm_compute; reflexivity|].
    repeat (split; [vm_compute; reflexivity|]).
    intros H. apply (f_equal (fun l => is_nan <$> l)) in H.
    vm_compute in H. discriminate.
  - eexists. eexists. split; [vm_compute; reflexivity|].
    repeat split; vm_compute; reflexivity.
Qed.

(** C4 (as the code has it): a start key that is [name/kind] for no axis
    and none of the three kinds adds no entry to the resolved modes and is
    otherwise ignored; the request has the outcome of the request without
    that key. *)
Theorem unresolved_start_key_ignored
    (pre post : list string) (key : string) (stop : list string) (hw : HW) :
  resolves (joints (info_ hw)) key = false ->
  prepare_command_mode_switch (pre ++ key :: post) stop hw
  = prepare_command_mode_switch (pre ++ post) stop hw.
Proof.
  intros Hun. unfold prepare_command_mode_switch.
  rewrite (resolve_start_skip pre key post _ [] Hun). reflexivity.
Qed.

Lemma unresolved_start_key_ignored_witness :
  prepare_command_mode_switch
    (["gripper_joint/position"] ++ "bogus/position" :: [])
    ["gripper_joint/position"] (snd (configure OK gripper_info constructed))
  = prepare_command_mode_switch (["gripper_joint/position"] ++ [])
      ["gripper_joint/position"] (snd (configure OK gripper_info constructed)).
Proof.
  apply (unresolved_start_key_ignored ["gripper_joint/position"] []
           "bogus/position").
  reflexivity.
Defined.

(** C4, the claim as stated fails: on the started one-axis gripper the
    request whose start list holds the axis's position key and a key of
    no axis returns OK. *)
Lemma unresolved_start_key_accepted :
  exists hw1 hw2,
    start [0%float] (snd (configure OK gripper_info constructed))
      = Normal (OK, hw1) /\
    resolves (joints (info_ hw1)) "bogus/position" = false /\
    prepare_command_mode_switch
      ["gripper_joint/position"; "bogus/position"] [] hw1
      = Normal (OK, hw2) /\
    control_lvl_ hw2 = [POSITION].
Proof.
  eexists. eexists. split; [vm_compute; reflexivity|].
  split; [vm_compute; reflexivity|].
  split; vm_compute; reflexivity.
Qed.




Lemma zip_with_agree {A B} (f g : A -> B -> B) (l : list A) :
  Forall (fun a => forall b, f a b = g a b) l ->
  forall k, zip_with f l k = zip_with g l k.
Proof.
  induction 1 as [|a l Ha _ IH]; intros [|b k]; simpl; try reflexivity.
  rewrite Ha, IH. reflexivity.
Qed.



(** C8 (as the code has it): [read] and [write] do not consult the
    lifecycle status.  Whatever the status, when the position vector has a
    slot and the device's answer holds a finger value, [read] makes one
    call on the Session, stores the value in position slot 0 and returns
    OK without changing the status; [write] returns OK and changes
    nothing. *)
Theorem read_write_ignore_status
    (hw : HW) (value : float) (fingers : list float) :
  hw_positions_ hw <> [] ->
  exists hw',
    read (value :: fingers) hw = Normal (OK, hw') /\
    session_log_ hw' = session_log_ hw ++ [GetMeasuredGripperMovement] /\
    hw_positions_ hw' = <[0 := value]> (hw_positions_ hw) /\
    status_ hw' = status_ hw /\
    write hw = (OK, hw).
Proof.
  intros Hne. unfold read, vec_get, vec_set. simpl.
  destruct (hw_positions_ hw) as [|p ps] eqn:Hp; [congruence|].
  simpl. eexists. repeat split.
Qed.

Lemma read_write_ignore_status_witness :
  status_ (snd (configure OK gripper_info constructed)) = CONFIGURED /\
  exists hw',
    read [1%float] (snd (configure OK gripper_info constructed))
      = Normal (OK, hw') /\
    session_log_ hw' = [GetMeasuredGripperMovement] /\
    hw_positions_ hw' = [1%float] /\
    status_ hw' = CONFIGURED.
Proof.
  split; [reflexivity|].
  destruct (read_write_ignore_status
              (snd (configure OK gripper_info constructed)) 1%float [])
    as (hw' & Hrun & Hlog & Hpos & Hst & _).
  - discriminate.
  - exists hw'. repeat split; assumption.
Defined.

(** C8, the claim as stated fails: on the configured gripper, before
    [start], [read] returns OK and has called the Session; after [start]
    and [stop] it does so again; [write] returns OK in both states. *)
Lemma read_write_outside_started :
  (exists hw',
     status_ (snd (configure OK gripper_info constructed)) = CONFIGURED /\
     read [1%float] (snd (configure OK gripper_info constructed))
       = Normal (OK, hw') /\
     session_log_ (snd (configure OK gripper_info constructed)) = [] /\
     session_log_ hw' = [GetMeasuredGripperMovement] /\
     fst (write (snd (configure OK gripper_info constructed))) = OK)
  /\
  (exists hw1 hw2 hw',
     start [0%float] (snd (configure OK gripper_info constructed))
       = Normal (OK, hw1) /\
     stop hw1 = (OK, hw2) /\
     status_ hw2 = STOPPED /\
     read [1%float] hw2 = Normal (OK, hw') /\
     session_log_ hw' = session_log_ hw2 ++ [GetMeasuredGripperMovement] /\
     fst (write hw2) = OK).
Proof.
  split.
  - eexists. repeat split.
  - eexists. eexists. eexists.
    split; [vm_compute; reflexivity|].
    split; [vm_compute; reflexivity|].
    split; [reflexivity|].
    split; [vm_compute; reflexivity|].
    split; vm_compute; reflexivity.
Qed.

(** C9 (as the code has it): any number of [write] calls in a row all
    return OK and leave the whole state as it was: nothing is recorded on
    the Session and the frame identifier keeps its value. *)
Theorem write_sends_nothing (n : nat) (hw : HW) :
  fst (write_times n hw) = replicate n OK /\
  snd (write_times n hw) = hw /\
  session_log_ (snd (write_times n hw)) = session_log_ hw /\
  frame_id (base_command_ (snd (write_times n hw)))
    = frame_id (base_command_ hw).
Proof.
  assert (H : write_times n hw = (replicate n OK, hw)).
  { induction n as [|n IH]; simpl; [reflexivity|]. rewrite IH. reflexivity. }
  rewrite H. repeat split.
Qed.

(** C9, the claim as stated fails: on the started gripper switched to
    position mode, [write] returns OK, the frame identifier is 0 before
    and after the call where an increment modulo 65536 gives 1, and the
    Session has seen no further call. *)
Lemma write_keeps_frame_id :
  exists hw1 hw2,
    start [0%float] (snd (configure OK gripper_info constructed))
      = Normal (OK, hw1) /\
    prepare_command_mode_switch ["gripper_joint/position"] [] hw1
      = Normal (OK, hw2) /\
    control_lvl_ hw2 = [POSITION] /\
    write hw2 = (OK, hw2) /\
    frame_id (base_command_ hw2) = 0%Z /\
    frame_id (base_command_ (snd (write hw2)))
      <> ((frame_id (base_command_ hw2) + 1) mod 65536)%Z /\
    session_log_ (snd (write hw2)) = session_log_ hw2.
Proof.
  eexists. eexists.
  split; [vm_compute; reflexivity|].
  split; [vm_compute; reflexivity|].
  repeat split. vm_compute. discriminate.
Qed.

(** C10: with at least one axis, a resolved list that passes the size test
    is not empty, the uniform-mode check stays inside it, and from a sized
    state the whole call touches no vector outside its range; with no
    axis, every start list, the empty one included, resolves to the empty
    list, the size test passes, and the check leaves the vector. *)
Theorem uniform_check_range (start stop : list string) (hw : HW) :
  let js := joints (info_ hw) in
  let new_modes := resolve_start start js [] in
  sized hw ->
  (js <> [] ->
   (length new_modes = length js ->
    new_modes <> [] /\
    exists same, all_equal_first new_modes = Normal same) /\
   exists r hw', prepare_command_mode_switch start stop hw = Normal (r, hw'))
  /\
  (js = [] ->
   new_modes = [] /\
   all_equal_first new_modes = OutOfRange /\
   prepare_command_mode_switch start stop hw = OutOfRange).
Proof.
  intros js new_modes Hs. split.
  - intros Hjs.
    assert (Hne : length new_modes = length js -> new_modes <> []).
    { intros Hlen ->. destruct js; [congruence | discriminate]. }
    split.
    + intros Hlen. split; [auto|].
      apply all_equal_first_nonempty. auto.
    + unfold prepare_command_mode_switch. fold js. fold new_modes.
      destruct (Nat.eqb_spec (length new_modes) (length js)) as [Hlen|];
        cbn [negb]; [|eauto].
      destruct (all_equal_first_nonempty new_modes (Hne Hlen)) as [same ->].
      cbn [bind]. destruct same; cbn [negb]; [|eauto].
      rewrite (stop_motion_released stop hw Hs). cbn [bind].
      pose proof (released_sized stop hw Hs) as (_ & _ & _ & _ & _ & _ & Hc).
      change (joints (info_ (released stop hw))) with js in *.
      apply set_new_modes_in_range; [rewrite Hc | rewrite Hlen]; lia.
  - intros Hjs.
    assert (Hnil : new_modes = []).
    { unfold new_modes. rewrite Hjs. apply resolve_start_no_joint. }
    split; [exact Hnil|]. split; [rewrite Hnil; reflexivity|].
    unfold prepare_command_mode_switch. fold js. fold new_modes.
    rewrite Hnil, Hjs. reflexivity.
Qed.

Lemma uniform_check_range_witness :
  (exists r hw',
     prepare_command_mode_switch ["gripper_joint/position"] []
       (snd (configure OK gripper_info constructed)) = Normal (r, hw'))
  /\
  prepare_command_mode_switch [] [] constructed = OutOfRange.
Proof.
  split.
  - destruct (uniform_check_range ["gripper_joint/position"] []
                (snd (configure OK gripper_info constructed)))
      as [Hsome _].
    + repeat split.
    + apply Hsome. discriminate.
  - destruct (uniform_check_range [] [] constructed) as [_ Hnone].
    + repeat split.
    + apply Hnone. reflexivity.
Defined.

(** ** Further properties of configure *)

Lemma joint_ok_shape (joint : ComponentInfo) :
  joint_ok joint = true <-> accepted_shape joint.
Proof. apply joint_ok_true. Qed.

(** X1: [configure] returns OK exactly when [configure_default] did and
    every joint of the description has one command interface, named
    position, and two state interfaces, the first named position or
    velocity.  The name of the second state interface plays no part. *)
Theorem configure_accepts_iff (rc : return_type) (info : HardwareInfo) (hw : HW) :
  fst (configure rc info hw) = OK <->
  rc = OK /\ Forall accepted_shape (joints info).
Proof.
  unfold configure. destruct rc; simpl.
  - destruct (validate_joints (joints info)) eqn:Hv; simpl.
    + split; [|reflexivity]. intros _. split; [reflexivity|].
      apply validate_joints_ok in Hv.
      eapply Forall_impl; [exact Hv|]. intros joint. apply joint_ok_shape.
    + split; [discriminate|]. intros [_ Hall].
      assert (Hok : validate_joints (joints info) = OK).
      { apply validate_joints_ok.
        eapply Forall_impl; [exact Hall|]. intros joint. apply joint_ok_shape. }
      congruence.
  - split; [discriminate|]. intros [H _]. discriminate.
Qed.

Lemma resize_refilled {A} (fill : A) (n : nat) (old : list A) :
  refilled fill n old (resize n fill old).
Proof.
  split; [apply length_resize|].
  intros i Hi. destruct (old !! i) as [x|] eqn:Hx; simpl.
  - rewrite lookup_resize; [exact Hx | exact Hi |].
    apply lookup_lt_is_Some. eauto.
  - apply lookup_resize_new; [|exact Hi].
    apply lookup_ge_None. exact Hx.
Qed.

(** X2: once [configure_default] has succeeded, [configure] leaves every
    vector with one slot per joint of the new description, whether it then
    accepts the description or rejects it.  A slot that existed before the
    call keeps its value; a new slot holds NaN, and POSITION in the mode
    table.  A second [configure] therefore resets neither stale values nor
    modes. *)
Theorem configure_refills (info : HardwareInfo) (hw : HW) :
  let hw' := snd (configure OK info hw) in
  let n := length (joints info) in
  info_ hw' = info /\
  refilled quiet_NaN n (hw_positions_ hw) (hw_positions_ hw') /\
  refilled quiet_NaN n (hw_velocities_ hw) (hw_velocities_ hw') /\
  refilled quiet_NaN n (hw_efforts_ hw) (hw_efforts_ hw') /\
  refilled quiet_NaN n (hw_commands_positions_ hw)
    (hw_commands_positions_ hw') /\
  refilled quiet_NaN n (hw_commands_velocities_ hw)
    (hw_commands_velocities_ hw') /\
  refilled quiet_NaN n (hw_commands_efforts_ hw)
    (hw_commands_efforts_ hw') /\
  refilled POSITION n (control_lvl_ hw) (control_lvl_ hw') /\
  base_command_ hw' = base_command_ hw /\
  session_log_ hw' = session_log_ hw.
Proof.
  unfold configure. simpl.
  destruct (validate_joints (joints info)); simpl;
    repeat split; try apply resize_refilled;
    intros i Hi; apply resize_refilled; exact Hi.
Qed.

(** ** Further properties of prepare_command_mode_switch *)

Lemma vec_get_Normal {A} (v : list A) (i : nat) (x : A) :
  vec_get v i = Normal x -> v !! i = Some x.
Proof. unfold vec_get. destruct (v !! i); [congruence | discriminate]. Qed.

Lemma vec_set_Normal {A} (v l : list A) (i : nat) (x : A) :
  vec_set v i x = Normal l -> l = <[i := x]> v /\ i < length v.
Proof.
  unfold vec_set. destruct (decide (i < length v)); [|discriminate].
  intros H. injection H as <-. auto.
Qed.

Lemma with_commands_trans (hw hw1 hw2 : HW) v1 e1 c1 v2 e2 c2 :
  hw1 = with_commands v1 e1 c1 hw ->
  hw2 = with_commands v2 e2 c2 hw1 ->
  hw2 = with_commands (hw_commands_velocities_ hw2)
          (hw_commands_efforts_ hw2) (control_lvl_ hw2) hw.
Proof. intros -> ->. reflexivity. Qed.

Lemma stop_joint_frame i (hw hw' : HW) :
  stop_joint i hw = Normal hw' ->
  hw' = with_commands (hw_commands_velocities_ hw')
          (hw_commands_efforts_ hw') (control_lvl_ hw') hw /\
  length (hw_commands_velocities_ hw') = length (hw_commands_velocities_ hw) /\
  length (hw_commands_efforts_ hw') = length (hw_commands_efforts_ hw) /\
  length (control_lvl_ hw') = length (control_lvl_ hw).
Proof.
  unfold stop_joint. intros H.
  apply bind_Normal in H as (v & Hv & H). cbv zeta in H.
  apply bind_Normal in H as (e & He & H). cbv zeta in H.
  apply bind_Normal in H as (c & Hc & H).
  injection H as <-. simpl in *.
  apply vec_set_length in Hv, He, Hc. auto.
Qed.

Lemma stop_key_frame key js : forall i (hw hw' : HW),
  stop_key key i js hw = Normal hw' ->
  hw' = with_commands (hw_commands_velocities_ hw')
          (hw_commands_efforts_ hw') (control_lvl_ hw') hw /\
  length (hw_commands_velocities_ hw') = length (hw_commands_velocities_ hw) /\
  length (hw_commands_efforts_ hw') = length (hw_commands_efforts_ hw) /\
  length (control_lvl_ hw') = length (control_lvl_ hw).
Proof.
  induction js as [|joint rest IH]; intros i hw hw' H.
  - injection H as <-. rewrite with_commands_same. auto.
  - cbn [stop_key] in H. apply bind_Normal in H as (hw1 & H1 & H).
    apply IH in H as (Hf & Hv & He & Hc).
    destruct (found_in key (name joint)).
    + apply stop_joint_frame in H1 as (Hf1 & Hv1 & He1 & Hc1).
      split; [eapply with_commands_trans; eassumption|].
      repeat split; congruence.
    + injection H1 as <-. auto.
Qed.

Lemma stop_motion_frame stop : forall (hw hw' : HW),
  stop_motion stop hw = Normal hw' ->
  hw' = with_commands (hw_commands_velocities_ hw')
          (hw_commands_efforts_ hw') (control_lvl_ hw') hw /\
  length (hw_commands_velocities_ hw') = length (hw_commands_velocities_ hw) /\
  length (hw_commands_efforts_ hw') = length (hw_commands_efforts_ hw) /\
  length (control_lvl_ hw') = length (control_lvl_ hw).
Proof.
  induction stop as [|key rest IH]; intros hw hw' H.
  - injection H as <-. rewrite with_commands_same. auto.
  - cbn [stop_motion] in H. apply bind_Normal in H as (hw1 & H1 & H).
    apply stop_key_frame in H1 as (Hf1 & Hv1 & He1 & Hc1).
    apply IH in H as (Hf & Hv & He & Hc).
    split; [eapply with_commands_trans; eassumption|].
    repeat split; congruence.
Qed.

Lemma set_new_modes_frame new_modes : forall todo i (hw hw' : HW) r,
  set_new_modes new_modes i todo hw = Normal (r, hw') ->
  hw' = set_control_lvl (control_lvl_ hw') hw /\
  length (control_lvl_ hw') = length (control_lvl_ hw).
Proof.
  induction todo as [|todo IH]; intros i hw hw' r H.
  - injection H as _ <-. rewrite set_control_lvl_same. auto.
  - cbn [set_new_modes] in H. apply bind_Normal in H as (lvl & _ & H).
    destruct (negb (lvl_eqb lvl UNDEFINED)).
    + injection H as _ <-. rewrite set_control_lvl_same. auto.
    + apply bind_Normal in H as (mode & _ & H).
      apply bind_Normal in H as (c & Hc & H).
      apply vec_set_length in Hc.
      apply IH in H as (Hf & Hl). simpl in Hl.
      split; [|congruence]. rewrite Hf at 1. reflexivity.
Qed.

(** X3: whatever it returns, [prepare_command_mode_switch] changes nothing
    but the commanded velocities, the commanded efforts and the mode
    table, and it changes the length of none of them: the description,
    the status, the measured state, the position commands, the command
    message and the Session are as before. *)
Theorem switch_touches_commands_only
    (start stop : list string) (hw hw' : HW) (r : return_type) :
  prepare_command_mode_switch start stop hw = Normal (r, hw') ->
  info_ hw' = info_ hw /\
  status_ hw' = status_ hw /\
  hw_positions_ hw' = hw_positions_ hw /\
  hw_velocities_ hw' = hw_velocities_ hw /\
  hw_efforts_ hw' = hw_efforts_ hw /\
  hw_commands_positions_ hw' = hw_commands_positions_ hw /\
  base_command_ hw' = base_command_ hw /\
  session_log_ hw' = session_log_ hw /\
  length (hw_commands_velocities_ hw') = length (hw_commands_velocities_ hw) /\
  length (hw_commands_efforts_ hw') = length (hw_commands_efforts_ hw) /\
  length (control_lvl_ hw') = length (control_lvl_ hw).
Proof.
  unfold prepare_command_mode_switch. intros H.
  destruct (negb _).
  { injection H as _ <-. repeat split. }
  apply bind_Normal in H as (same & _ & H).
  destruct (negb same).
  { injection H as _ <-. repeat split. }
  apply bind_Normal in H as (hw1 & H1 & H).
  apply stop_motion_frame in H1 as (Hf1 & Hv1 & He1 & Hc1).
  apply set_new_modes_frame in H as (Hf & Hc).
  rewrite Hf, Hf1. simpl.
  repeat split; try assumption.
  rewrite Hf in Hc. simpl in Hc. congruence.
Qed.

Lemma switch_touches_commands_only_witness :
  exists hw',
    prepare_command_mode_switch ["left/position"; "right/position"]
      ["left/position"] (snd (configure OK two_axis_info constructed))
    = Normal (ERROR, hw') /\
    hw_positions_ hw' = [nan; nan] /\
    session_log_ hw' = [].
Proof.
  eexists. split; [vm_compute; reflexivity|].
  match goal with
  | |- context [hw_positions_ ?h] =>
      destruct (switch_touches_commands_only
                  ["left/position"; "right/position"] ["left/position"]
                  (snd (configure OK two_axis_info constructed)) h ERROR)
        as (_ & _ & Hp & _ & _ & _ & _ & Hl & _)
  end.
  - vm_compute. reflexivity.
  - split; [rewrite Hp | rewrite Hl]; reflexivity.
Defined.

Lemma set_new_modes_OK_free : forall todo new_modes (hw hw' : HW) cp cm,
  control_lvl_ hw = cp ++ cm -> length cm = todo ->
  set_new_modes new_modes (length cp) todo hw = Normal (OK, hw') ->
  Forall (eq UNDEFINED) cm.
Proof.
  induction todo as [|todo IH]; intros new_modes hw hw' cp cm Hc Hlen H.
  - destruct cm; [constructor | discriminate].
  - destruct cm as [|c cm]; [discriminate|].
    cbn [set_new_modes] in H. rewrite Hc, vec_get_middle in H.
    cbn [bind] in H. destruct c; cbn [lvl_eqb negb] in H; try discriminate.
    apply bind_Normal in H as (mode & _ & H).
    rewrite vec_set_middle in H. cbn [bind] in H.
    constructor; [reflexivity|].
    replace (S (length cp)) with (length (cp ++ [mode])) in H
      by (rewrite length_app; simpl; lia).
    refine (IH new_modes _ hw' (cp ++ [mode]) cm _ _ H).
    + simpl. rewrite snoc_app. reflexivity.
    + simpl in Hlen. lia.
Qed.

Lemma set_new_modes_busy : forall cm1 new_modes (hw : HW) cp b cm2 np nm1 nm2 extra,
  control_lvl_ hw = cp ++ cm1 ++ b :: cm2 ->
  new_modes = np ++ nm1 ++ nm2 ->
  length np = length cp -> length nm1 = length cm1 ->
  Forall (eq UNDEFINED) cm1 -> b <> UNDEFINED ->
  set_new_modes new_modes (length cp) (length cm1 + S extra) hw
  = Normal (ERROR, set_control_lvl (cp ++ nm1 ++ b :: cm2) hw).
Proof.
  induction cm1 as [|c cm1 IH];
    intros new_modes hw cp b cm2 np nm1 nm2 extra Hc Hn Hlp Hl1 Hfree Hb.
  - destruct nm1; [|discriminate]. simpl in *.
    rewrite Hc, vec_get_middle. cbn [bind].
    destruct b; try congruence; cbn [lvl_eqb negb];
      rewrite <- Hc, set_control_lvl_same; reflexivity.
  - destruct nm1 as [|n nm1]; [discriminate|].
    inversion Hfree as [|? ? Hu Hrest]; subst c.
    cbn [length Nat.add set_new_modes].
    rewrite Hc. rewrite <- app_comm_cons, vec_get_middle.
    cbn [bind lvl_eqb negb].
    rewrite Hn, <- app_comm_cons, <- Hlp, vec_get_middle. cbn [bind].
    rewrite Hlp, vec_set_middle. cbn [bind].
    replace (S (length cp)) with (length (cp ++ [n]))
      by (rewrite length_app; simpl; lia).
    rewrite (IH (np ++ n :: nm1 ++ nm2) _ (cp ++ [n]) b cm2 (np ++ [n])
               nm1 nm2 extra);
      rewrite ?snoc_app, ?length_app; simpl; try lia;
      try reflexivity; try assumption.
    simpl in Hl1. lia.
Qed.

Lemma switch_past_checks start stop (hw : HW) :
  let new_modes := resolve_start start (joints (info_ hw)) [] in
  sized hw ->
  length new_modes = length (joints (info_ hw)) ->
  all_equal_first new_modes = Normal true ->
  prepare_command_mode_switch start stop hw
  = set_new_modes new_modes 0 (length (joints (info_ hw))) (released stop hw).
Proof.
  intros new_modes Hs Hlen Hsame. unfold prepare_command_mode_switch.
  fold new_modes. rewrite Hlen, Nat.eqb_refl. cbn [negb].
  rewrite Hsame. cbn [bind negb].
  rewrite (stop_motion_released stop hw Hs). reflexivity.
Qed.

(** X4: from a sized state the call returns OK exactly when the start list
    resolves to as many entries as there are joints, the entries are all
    the same, and the stop loops leave every axis UNDEFINED; the state it
    returns is then the one the stop loops left, with the mode table
    replaced by the resolved modes. *)
Theorem switch_ok_iff (start stop : list string) (hw hw' : HW) :
  let new_modes := resolve_start start (joints (info_ hw)) [] in
  sized hw ->
  (prepare_command_mode_switch start stop hw = Normal (OK, hw') <->
   length new_modes = length (joints (info_ hw)) /\
   all_equal_first new_modes = Normal true /\
   Forall (eq UNDEFINED) (control_lvl_ (released stop hw)) /\
   hw' = set_control_lvl new_modes (released stop hw)).
Proof.
  intros new_modes Hs. split.
  - intros H.
    assert (Hchecks : length new_modes = length (joints (info_ hw)) /\
                      all_equal_first new_modes = Normal true).
    { unfold prepare_command_mode_switch in H. fold new_modes in H.
      destruct (Nat.eqb_spec (length new_modes) (length (joints (info_ hw))))
        as [Hlen|]; cbn [negb] in H; [|discriminate].
      apply bind_Normal in H as (same & Hsame & H).
      destruct same; [auto | discriminate]. }
    destruct Hchecks as [Hlen Hsame].
    rewrite (switch_past_checks start stop hw Hs Hlen Hsame) in H.
    pose proof (released_sized stop hw Hs) as (_ & _ & _ & _ & _ & _ & Hc).
    assert (Hfree : Forall (eq UNDEFINED) (control_lvl_ (released stop hw))).
    { exact (set_new_modes_OK_free (length (joints (info_ hw))) new_modes
               (released stop hw) hw' [] _ eq_refl Hc H). }
    repeat split; try assumption.
    pose proof (switch_commits start stop hw Hs Hlen Hsame Hfree) as Hok.
    rewrite (switch_past_checks start stop hw Hs Hlen Hsame) in Hok.
    unfold new_modes in *. rewrite H in Hok. injection Hok as ->.
    reflexivity.
  - intros (Hlen & Hsame & Hfree & ->).
    apply switch_commits; assumption.
Qed.

Lemma switch_ok_iff_witness :
  prepare_command_mode_switch ["gripper_joint/position"] []
    (set_control_lvl [UNDEFINED] (snd (configure OK gripper_info constructed)))
  = Normal
      (OK,
       set_control_lvl [POSITION]
         (released []
            (set_control_lvl [UNDEFINED]
               (snd (configure OK gripper_info constructed))))).
Proof.
  apply (switch_ok_iff ["gripper_joint/position"] []
           (set_control_lvl [UNDEFINED]
              (snd (configure OK gripper_info constructed)))).
  - repeat split.
  - split; [reflexivity|]. split; [reflexivity|].
    split; [repeat constructor | reflexivity].
Defined.

(** X5: from a sized state, a request that passes both checks while the
    stop loops leave some axis not UNDEFINED returns ERROR.  In the state
    it returns, the axes before the first such axis carry the new mode,
    that axis and the axes after it carry the mode the stop loops left,
    and the slots the stop loops zeroed stay zeroed. *)
Theorem switch_busy (start stop : list string) (hw : HW)
    (free : list integration_lvl_t) (busy : integration_lvl_t)
    (others : list integration_lvl_t) :
  let new_modes := resolve_start start (joints (info_ hw)) [] in
  sized hw ->
  length new_modes = length (joints (info_ hw)) ->
  all_equal_first new_modes = Normal true ->
  control_lvl_ (released stop hw) = free ++ busy :: others ->
  Forall (eq UNDEFINED) free ->
  busy <> UNDEFINED ->
  prepare_command_mode_switch start stop hw
  = Normal (ERROR,
            set_control_lvl (take (length free) new_modes ++ busy :: others)
              (released stop hw)).
Proof.
  intros new_modes Hs Hlen Hsame Hc Hfree Hbusy.
  rewrite (switch_past_checks start stop hw Hs Hlen Hsame). fold new_modes.
  pose proof (released_sized stop hw Hs) as (_ & _ & _ & _ & _ & _ & Hn).
  change (joints (info_ (released stop hw))) with (joints (info_ hw)) in Hn.
  rewrite Hc, length_app in Hn. simpl in Hn.
  replace (length (joints (info_ hw)))
    with (length free + S (length others)) by lia.
  apply (set_new_modes_busy free new_modes (released stop hw) [] busy others
           [] (take (length free) new_modes) (drop (length free) new_modes)
           (length others));
    try assumption; try reflexivity.
  - simpl. rewrite take_drop. reflexivity.
  - rewrite length_take. lia.
Qed.

Lemma switch_busy_witness :
  exists hw1,
    start [0%float] (snd (configure OK two_axis_info constructed))
      = Normal (OK, hw1) /\
    prepare_command_mode_switch ["left/position"; "right/position"] [] hw1
    = Normal (ERROR, set_control_lvl [POSITION; POSITION] (released [] hw1)).
Proof.
  eexists. split; [vm_compute; reflexivity|].
  match goal with
  | |- prepare_command_mode_switch _ _ ?h = _ =>
      apply (switch_busy ["left/position"; "right/position"] [] h
               [UNDEFINED] POSITION [])
  end.
  - vm_compute. repeat split.
  - reflexivity.
  - reflexivity.
  - reflexivity.
  - repeat constructor.
  - discriminate.
Defined.

Lemma resolve_key_defined key js : forall acc,
  Forall (fun mode => mode <> UNDEFINED) acc ->
  Forall (fun mode => mode <> UNDEFINED) (resolve_key key js acc).
Proof.
  induction js as [|joint rest IH]; intros acc Hacc; simpl; [exact Hacc|].
  apply IH. unfold push_back.
  repeat match goal with
    | |- Forall _ (if ?b then _ else _) => destruct b
    | |- Forall _ (_ ++ [_]) =>
        apply Forall_app; split; [|repeat constructor; discriminate]
    end; exact Hacc.
Qed.

Lemma resolve_start_defined start js : forall acc,
  Forall (fun mode => mode <> UNDEFINED) acc ->
  Forall (fun mode => mode <> UNDEFINED) (resolve_start start js acc).
Proof.
  induction start as [|key rest IH]; intros acc Hacc; simpl; [exact Hacc|].
  apply IH, resolve_key_defined, Hacc.
Qed.

(** A request without stop keys on a state whose first axis is taken is
    refused and changes nothing. *)
Lemma first_axis_taken_refuses start (hw : HW) first others :
  control_lvl_ hw = first :: others -> first <> UNDEFINED ->
  joints (info_ hw) <> [] ->
  prepare_command_mode_switch start [] hw = Normal (ERROR, hw).
Proof.
  intros Hc Hfirst Hjs. unfold prepare_command_mode_switch.
  destruct (Nat.eqb_spec
              (length (resolve_start start (joints (info_ hw)) []))
              (length (joints (info_ hw)))) as [Hlen|];
    cbn [negb]; [|reflexivity].
  destruct (resolve_start start (joints (info_ hw)) []) as [|m ms].
  { destruct (joints (info_ hw)); [congruence | discriminate]. }
  cbn [all_equal_first bind].
  destruct (forallb _ ms); cbn [negb]; [|reflexivity].
  cbn [stop_motion bind].
  destruct (joints (info_ hw)) as [|joint rest]; [congruence|].
  cbn [length set_new_modes]. rewrite Hc. cbn [vec_get lookup list_lookup bind].
  destruct first; try congruence; reflexivity.
Qed.

(** X6: after a call that returned OK from a sized state no axis is
    UNDEFINED, and every later request without stop keys is refused with
    the state unchanged, also when [stop] has been called in between:
    [stop] releases no axis. *)
Theorem claimed_axes_stay_claimed
    (start stops : list string) (hw hw1 : HW) :
  sized hw ->
  prepare_command_mode_switch start stops hw = Normal (OK, hw1) ->
  Forall (fun mode => mode <> UNDEFINED) (control_lvl_ hw1) /\
  control_lvl_ (snd (stop hw1)) = control_lvl_ hw1 /\
  forall start',
    prepare_command_mode_switch start' [] hw1 = Normal (ERROR, hw1) /\
    prepare_command_mode_switch start' [] (snd (stop hw1))
    = Normal (ERROR, snd (stop hw1)).
Proof.
  intros Hs Hok.
  assert (Hpost :
    control_lvl_ hw1 = resolve_start start (joints (info_ hw)) [] /\
    info_ hw1 = info_ hw /\
    length (control_lvl_ hw1) = length (joints (info_ hw)) /\
    joints (info_ hw) <> []).
  { unfold prepare_command_mode_switch in Hok.
    destruct (Nat.eqb_spec
                (length (resolve_start start (joints (info_ hw)) []))
                (length (joints (info_ hw)))) as [Hlen|];
      cbn [negb] in Hok; [|discriminate].
    apply bind_Normal in Hok as (same & Hsame & Hok).
    destruct same; cbn [negb] in Hok; [|discriminate].
    rewrite (stop_motion_released stops hw Hs) in Hok. cbn [bind] in Hok.
    pose proof (released_sized stops hw Hs) as (_ & _ & _ & _ & _ & _ & Hc).
    pose proof (set_new_modes_OK_free _ _ (released stops hw) hw1 []
                  _ eq_refl Hc Hok) as Hfree.
    assert (Hcommit :
      set_new_modes (resolve_start start (joints (info_ hw)) []) 0
        (length (joints (info_ hw))) (released stops hw)
      = Normal (OK, set_control_lvl
                      (resolve_start start (joints (info_ hw)) [])
                      (released stops hw)))
      by exact (set_new_modes_free _ _ (released stops hw) []
                  (control_lvl_ (released stops hw)) []
                  (resolve_start start (joints (info_ hw)) [])
                  eq_refl eq_refl eq_refl Hc Hlen Hfree).
    change (joints (info_ (released stops hw))) with (joints (info_ hw))
      in Hok.
    rewrite Hcommit in Hok. injection Hok as <-. simpl. repeat split; try assumption.
    intros Hnil. rewrite Hnil in Hlen, Hsame.
    destruct (resolve_start start [] []); discriminate. }
  destruct Hpost as (Hc1 & Hi1 & Hl1 & Hjs).
  assert (Hdef : Forall (fun mode => mode <> UNDEFINED) (control_lvl_ hw1)).
  { rewrite Hc1. apply resolve_start_defined. constructor. }
  split; [exact Hdef|]. split; [reflexivity|].
  destruct (control_lvl_ hw1) as [|first others] eqn:Hlvl.
  { destruct (joints (info_ hw)); [congruence | discriminate]. }
  inversion Hdef as [|? ? Hfirst _]; subst.
  intros start'. split.
  - apply (first_axis_taken_refuses start' hw1 first others);
      [exact Hlvl | exact Hfirst | rewrite Hi1; exact Hjs].
  - apply (first_axis_taken_refuses start' (snd (stop hw1)) first others);
      [exact Hlvl | exact Hfirst | simpl; rewrite Hi1; exact Hjs].
Qed.

Lemma claimed_axes_stay_claimed_witness :
  prepare_command_mode_switch ["gripper_joint/position"] []
    (set_control_lvl [POSITION]
       (released []
          (set_control_lvl [UNDEFINED]
             (snd (configure OK gripper_info constructed)))))
  = Normal
      (ERROR,
       set_control_lvl [POSITION]
         (released []
            (set_control_lvl [UNDEFINED]
               (snd (configure OK gripper_info constructed))))).
Proof.
  destruct (claimed_axes_stay_claimed ["gripper_joint/position"] []
              (set_control_lvl [UNDEFINED]
                 (snd (configure OK gripper_info constructed)))
              (set_control_lvl [POSITION]
                 (released []
                    (set_control_lvl [UNDEFINED]
                       (snd (configure OK gripper_info constructed))))))
    as (_ & _ & Hlater).
  - repeat split.
  - reflexivity.
  - apply (Hlater ["gripper_joint/position"]).
Defined.

(** ** Strings *)

Lemma append_cons (c : Ascii.ascii) (s t : string) :
  String.append (String c s) t = String c (String.append s t).
Proof. reflexivity. Qed.

Lemma append_empty_l (t : string) : String.append EmptyString t = t.
Proof. reflexivity. Qed.

Lemma append_assoc (s t u : string) :
  String.append (String.append s t) u = String.append s (String.append t u).
Proof.
  induction s as [|c s IH]; [reflexivity|].
  rewrite !append_cons, IH. reflexivity.
Qed.

Lemma length_append (s t : string) :
  String.length (String.append s t) = String.length s + String.length t.
Proof.
  induction s as [|c s IH]; [reflexivity|].
  change (String.append (String c s) t) with (String c (String.append s t)).
  simpl. rewrite IH. reflexivity.
Qed.

Lemma substring_prefix : forall l s t,
  String.substring 0 l s = t -> String.length t = l ->
  exists b, s = String.append t b.
Proof.
  induction l as [|l IH]; intros s t Hsub Hlen.
  - destruct t; [|discriminate]. exists s. reflexivity.
  - destruct s as [|c s]; simpl in Hsub.
    + subst t. discriminate.
    + destruct t as [|c' t]; [discriminate|].
      injection Hsub as -> Hsub. simpl in Hlen.
      destruct (IH s t Hsub) as [b ->]; [lia|].
      exists b. reflexivity.
Qed.

Lemma substring_inside : forall m l s t,
  String.substring m l s = t -> String.length t = l ->
  exists a b, s = String.append a (String.append t b).
Proof.
  induction m as [|m IH]; intros l s t Hsub Hlen.
  - destruct (substring_prefix l s t Hsub Hlen) as [b ->].
    exists EmptyString, b. reflexivity.
  - destruct s as [|c s]; simpl in Hsub.
    + destruct l; subst t; simpl in Hlen; try discriminate.
      exists EmptyString, EmptyString. reflexivity.
    + destruct (IH l s t Hsub Hlen) as (a & b & ->).
      exists (String c a), b. reflexivity.
Qed.

Lemma substring_own_prefix (t b : string) :
  String.substring 0 (String.length t) (String.append t b) = t.
Proof.
  induction t as [|c t IH].
  - rewrite append_empty_l. destruct b; reflexivity.
  - change (String.append (String c t) b)
      with (String c (String.append t b)).
    simpl. rewrite IH. reflexivity.
Qed.

Lemma substring_skip (a s : string) (l : nat) :
  String.substring (String.length a) l (String.append a s)
  = String.substring 0 l s.
Proof.
  induction a as [|c a IH]; [reflexivity|].
  change (String.append (String c a) s) with (String c (String.append a s)).
  simpl. exact IH.
Qed.

Lemma index_empty (s : string) : String.index 0 EmptyString s = Some 0.
Proof. destruct s; reflexivity. Qed.

(** [key.find(n) != npos] holds exactly when [n] occurs in [key]. *)
Lemma found_in_occurs (key n : string) :
  found_in key n = true <->
  exists a b, key = String.append a (String.append n b).
Proof.
  unfold found_in. split.
  - destruct (String.index 0 n key) as [m|] eqn:Hidx; [|discriminate].
    intros _. apply String.index_correct1 in Hidx.
    apply (substring_inside m (String.length n) key n Hidx eq_refl).
  - intros (a & b & ->).
    destruct (String.index 0 n (String.append a (String.append n b)))
      eqn:Hidx; [reflexivity|].
    exfalso. destruct n as [|c n].
    + rewrite index_empty in Hidx. discriminate.
    + apply (String.index_correct3 0 (String.length a)) in Hidx;
        [|discriminate|lia].
      apply Hidx. rewrite substring_skip. apply substring_own_prefix.
Qed.

(** X7: a stop list releases an axis exactly when the axis's name occurs
    somewhere in one of its keys.  The key of one axis therefore also
    releases every axis whose name is part of that axis's name. *)
Theorem stopped_by_occurrence (stops : list string) (joint : ComponentInfo) :
  (stopped_by stops joint = true <->
   exists key a b,
     In key stops /\
     key = String.append a (String.append (name joint) b)) /\
  (forall other kind a b,
     name other = String.append a (String.append (name joint) b) ->
     In (interface_key (name other) kind) stops ->
     stopped_by stops joint = true).
Proof.
  assert (Hiff : stopped_by stops joint = true <->
                 exists key a b,
                   In key stops /\
                   key = String.append a (String.append (name joint) b)).
  { unfold stopped_by. rewrite existsb_exists. split.
    - intros (key & Hin & Hfound).
      apply found_in_occurs in Hfound as (a & b & Hkey). eauto.
    - intros (key & a & b & Hin & Hkey).
      exists key. split; [exact Hin|]. apply found_in_occurs. eauto. }
  split; [exact Hiff|].
  intros other kind a b Hname Hin. apply Hiff.
  exists (interface_key (name other) kind), a,
    (String.append b (String.append "/" kind)).
  split; [exact Hin|].
  unfold interface_key. rewrite Hname, !append_assoc. reflexivity.
Qed.

Lemma resolve_start_repeat key js m : forall n acc,
  resolve_key key js [] = [m] ->
  resolve_start (replicate n key) js acc = acc ++ replicate n m.
Proof.
  induction n as [|n IH]; intros acc Hkey; simpl.
  - rewrite app_nil_r. reflexivity.
  - rewrite resolve_key_app, Hkey, IH by exact Hkey.
    rewrite <- app_assoc. reflexivity.
Qed.

(** X8: the count test counts entries, not axes.  When a key resolves to
    exactly one entry, of mode [m], the start list that repeats this one
    key once per joint passes both checks; from a sized state with every
    axis UNDEFINED the call returns OK and sets every axis, named or not,
    to [m]. *)
Theorem repeated_key_claims_all_axes
    (key : string) (stops : list string) (hw : HW) (m : integration_lvl_t) :
  let js := joints (info_ hw) in
  sized hw ->
  js <> [] ->
  resolve_key key js [] = [m] ->
  Forall (eq UNDEFINED) (control_lvl_ hw) ->
  exists hw1,
    prepare_command_mode_switch (replicate (length js) key) stops hw
    = Normal (OK, hw1) /\
    control_lvl_ hw1 = replicate (length js) m.
Proof.
  intros js Hs Hjs Hkey Hfree.
  pose proof (resolve_start_repeat key js m (length js) [] Hkey) as Hres.
  simpl in Hres.
  exists (set_control_lvl (replicate (length js) m) (released stops hw)).
  split; [|reflexivity].
  rewrite <- Hres.
  apply switch_commits; try assumption.
  - fold js. rewrite Hres. apply length_replicate.
  - fold js. rewrite Hres. apply (all_equal_first_uniform m).
    + destruct js; [congruence|]. simpl. left.
    + apply Forall_replicate_eq.
  - apply unlock_free. exact Hfree.
Qed.

Lemma repeated_key_claims_all_axes_witness :
  exists hw1,
    prepare_command_mode_switch ["left/position"; "left/position"] []
      (set_control_lvl [UNDEFINED; UNDEFINED]
         (snd (configure OK two_axis_info constructed)))
    = Normal (OK, hw1) /\
    control_lvl_ hw1 = [POSITION; POSITION].
Proof.
  apply (repeated_key_claims_all_axes "left/position" []
           (set_control_lvl [UNDEFINED; UNDEFINED]
              (snd (configure OK two_axis_info constructed))) POSITION).
  - repeat split.
  - discriminate.
  - reflexivity.
  - repeat constructor.
Defined.

(** ** The exported interfaces *)

Lemma address_of_in_range {A} (v : list A) (i : nat) :
  i < length v -> address_of v i = Normal i.
Proof.
  intros Hi. unfold address_of, vec_get.
  destruct (v !! i) eqn:Hv; [reflexivity|].
  apply lookup_ge_None in Hv. lia.
Qed.

Lemma address_of_out_of_range {A} (v : list A) (i : nat) :
  length v <= i -> address_of v i = OutOfRange.
Proof.
  intros Hi. unfold address_of, vec_get.
  rewrite (proj2 (lookup_ge_None v i) Hi). reflexivity.
Qed.

Lemma export_command_from_closed js : forall i (hw : HW) acc,
  i + length js <= length (hw_commands_positions_ hw) ->
  export_command_from i js hw acc
  = Normal (acc ++ imap (fun k joint => position_command (i + k) joint) js).
Proof.
  induction js as [|joint rest IH]; intros i hw acc Hlen.
  - simpl. rewrite app_nil_r. reflexivity.
  - simpl in Hlen. cbn [export_command_from].
    rewrite address_of_in_range by lia. cbn [bind].
    rewrite IH by lia. unfold push_back. rewrite <- app_assoc.
    simpl. rewrite Nat.add_0_r. do 3 f_equal.
    apply imap_ext. intros k x _. simpl. f_equal. lia.
Qed.

Lemma export_state_from_closed js : forall i (hw : HW) acc,
  i + length js <= length (hw_positions_ hw) ->
  i + length js <= length (hw_velocities_ hw) ->
  export_state_from i js hw acc
  = Normal (acc ++ concat (imap (fun k joint =>
                                   [position_state (i + k) joint;
                                    velocity_state (i + k) joint]) js)).
Proof.
  induction js as [|joint rest IH]; intros i hw acc Hp Hv.
  - simpl. rewrite app_nil_r. reflexivity.
  - simpl in Hp, Hv. cbn [export_state_from].
    rewrite !address_of_in_range by lia. cbn [bind].
    rewrite IH by lia. unfold push_back. rewrite <- !app_assoc.
    simpl. rewrite Nat.add_0_r. do 5 f_equal.
    apply imap_ext. intros k x _. simpl. repeat f_equal; lia.
Qed.

Lemma imap_pairs_shift {A B} (f g : nat -> A -> B) (l : list A) (i : nat) :
  imap ((fun k x => [f (i + k) x; g (i + k) x]) ∘ S) l
  = imap (fun k x => [f (S i + k) x; g (S i + k) x]) l.
Proof.
  apply imap_ext. intros k x _. simpl.
  replace (i + S k) with (S (i + k)) by lia. reflexivity.
Qed.

Lemma lookup_pairs {A B} (f g : nat -> A -> B) (l : list A) : forall i k x,
  l !! k = Some x ->
  concat (imap (fun k x => [f (i + k) x; g (i + k) x]) l) !! (2 * k)
    = Some (f (i + k) x) /\
  concat (imap (fun k x => [f (i + k) x; g (i + k) x]) l) !! (2 * k + 1)
    = Some (g (i + k) x).
Proof.
  induction l as [|y l IH]; intros i k x Hk; [discriminate|].
  rewrite imap_cons, imap_pairs_shift.
  destruct k as [|k]; simpl in Hk.
  - injection Hk as ->. rewrite Nat.add_0_r. split; reflexivity.
  - destruct (IH (S i) k x Hk) as [Hf Hg].
    replace (2 * S k + 1) with (S (S (2 * k + 1))) by lia.
    replace (2 * S k) with (S (S (2 * k))) by lia.
    replace (i + S k) with (S i + k) by lia.
    exact (conj Hf Hg).
Qed.

Lemma length_pairs {A B} (f g : nat -> A -> B) (l : list A) : forall i,
  length (concat (imap (fun k x => [f (i + k) x; g (i + k) x]) l))
  = 2 * length l.
Proof.
  induction l as [|y l IH]; intros i; [reflexivity|].
  rewrite imap_cons, imap_pairs_shift.
  change (length (concat ([f (i + 0) y; g (i + 0) y]
            :: imap (fun k x => [f (S i + k) x; g (S i + k) x]) l)))
    with (S (S (length (concat
            (imap (fun k x => [f (S i + k) x; g (S i + k) x]) l))))).
  rewrite IH. simpl. lia.
Qed.

(** X9: from a sized state [export_state_interfaces] stays inside the
    vectors and returns two handles per joint, in joint order: the
    position handle and the velocity handle of the joint, each holding the
    address of the joint's own slot, which holds a value.  The state
    interfaces the description declares for the joint play no part; no
    handle on an effort slot is ever returned. *)
Theorem export_state_interfaces_handles (hw : HW) :
  sized hw ->
  exists handles,
    export_state_interfaces hw = Normal handles /\
    length handles = 2 * length (joints (info_ hw)) /\
    (forall i joint,
       joints (info_ hw) !! i = Some joint ->
       handles !! (2 * i) = Some (position_state i joint) /\
       handles !! (2 * i + 1) = Some (velocity_state i joint) /\
       get_value hw (position_state i joint) = hw_positions_ hw !! i /\
       get_value hw (velocity_state i joint) = hw_velocities_ hw !! i /\
       is_Some (hw_positions_ hw !! i) /\
       is_Some (hw_velocities_ hw !! i)).
Proof.
  intros (Hp & Hv & _).
  unfold export_state_interfaces.
  rewrite export_state_from_closed by (simpl; lia). simpl.
  eexists. split; [reflexivity|]. split.
  - apply (length_pairs position_state velocity_state _ 0).
  - intros i joint Hj.
    destruct (lookup_pairs position_state velocity_state _ 0 i joint Hj)
      as [H0 H1].
    assert (Hi : i < length (joints (info_ hw)))
      by (apply lookup_lt_is_Some; eauto).
    repeat split; try assumption; try reflexivity;
      apply lookup_lt_is_Some; lia.
Qed.

Lemma export_state_interfaces_handles_witness :
  exists handles,
    export_state_interfaces (snd (configure OK effort_state_info constructed))
      = Normal handles /\
    handles = [position_state 0 (gripper_axis "gripper_joint");
               velocity_state 0 (gripper_axis "gripper_joint")].
Proof.
  destruct (export_state_interfaces_handles
              (snd (configure OK effort_state_info constructed)))
    as (handles & Hrun & _).
  - repeat split.
  - exists handles. split; [exact Hrun|].
    vm_compute in Hrun. injection Hrun as <-. reflexivity.
Defined.

Lemma full_name_position_commands js : forall i,
  full_name <$> imap (fun k joint => position_command (i + k) joint) js
  = (fun joint => interface_key (name joint) HW_IF_POSITION) <$> js.
Proof.
  induction js as [|joint rest IH]; intros i; [reflexivity|].
  rewrite imap_cons, !fmap_cons. f_equal.
  rewrite <- (IH (S i)). f_equal.
  apply imap_ext. intros k x _. simpl.
  replace (i + S k) with (S (i + k)) by lia. reflexivity.
Qed.

(** X10: from a sized state [export_command_interfaces] stays inside the
    vector and returns one handle per joint, in joint order: the position
    command handle of the joint, holding the address of the joint's own
    position-command slot, which holds a value.  No handle on a velocity
    or effort command slot is ever returned. *)
Theorem export_command_interfaces_handles (hw : HW) :
  sized hw ->
  exists handles,
    export_command_interfaces hw = Normal handles /\
    length handles = length (joints (info_ hw)) /\
    (forall i joint,
       joints (info_ hw) !! i = Some joint ->
       handles !! i = Some (position_command i joint) /\
       get_value hw (position_command i joint)
         = hw_commands_positions_ hw !! i /\
       is_Some (hw_commands_positions_ hw !! i)).
Proof.
  intros (_ & _ & _ & Hcp & _).
  unfold export_command_interfaces.
  rewrite export_command_from_closed by (simpl; lia). simpl.
  eexists. split; [reflexivity|]. split; [apply length_imap|].
  intros i joint Hj.
  assert (Hi : i < length (joints (info_ hw)))
    by (apply lookup_lt_is_Some; eauto).
  rewrite list_lookup_imap, Hj.
  repeat split. apply lookup_lt_is_Some. lia.
Qed.

Lemma export_command_interfaces_handles_witness :
  exists handles,
    export_command_interfaces (snd (configure OK two_axis_info constructed))
      = Normal handles /\
    handles = [position_command 0 (gripper_axis "left");
               position_command 1 (gripper_axis "right")].
Proof.
  destruct (export_command_interfaces_handles
              (snd (configure OK two_axis_info constructed)))
    as (handles & Hrun & _).
  - repeat split.
  - exists handles. split; [exact Hrun|].
    vm_compute in Hrun. injection Hrun as <-. reflexivity.
Defined.

Lemma append_same_length_inj : forall s1 s2 t1 t2 : string,
  String.length t1 = String.length t2 ->
  String.append s1 t1 = String.append s2 t2 ->
  s1 = s2 /\ t1 = t2.
Proof.
  induction s1 as [|c1 s1 IH]; intros [|c2 s2] t1 t2 Hlen Heq.
  - auto.
  - rewrite append_empty_l in Heq. subst t1.
    change (String.append (String c2 s2) t2)
      with (String c2 (String.append s2 t2)) in Hlen.
    simpl in Hlen. rewrite length_append in Hlen. lia.
  - rewrite append_empty_l in Heq. subst t2.
    change (String.append (String c1 s1) t1)
      with (String c1 (String.append s1 t1)) in Hlen.
    simpl in Hlen. rewrite length_append in Hlen. lia.
  - change (String c1 (String.append s1 t1) = String c2 (String.append s2 t2))
      in Heq.
    injection Heq as -> Heq.
    destruct (IH s2 t1 t2 Hlen Heq) as [-> ->]. auto.
Qed.

Lemma position_key_inj (n n' : string) :
  interface_key n HW_IF_POSITION = interface_key n' HW_IF_POSITION -> n = n'.
Proof.
  unfold interface_key. intros H.
  apply append_same_length_inj in H as [H _]; [|reflexivity].
  apply append_same_length_inj in H as [H _]; [exact H | reflexivity].
Qed.

Lemma position_key_not_velocity (n n' : string) :
  interface_key n HW_IF_POSITION <> interface_key n' HW_IF_VELOCITY.
Proof.
  unfold interface_key. intros H.
  apply append_same_length_inj in H as [_ H]; [discriminate | reflexivity].
Qed.

Lemma position_key_not_effort (n n' : string) :
  interface_key n HW_IF_POSITION <> interface_key n' HW_IF_EFFORT.
Proof.
  unfold interface_key, HW_IF_POSITION. intros H.
  change "position" with (String.append "po" "sition") in H.
  rewrite <- append_assoc in H.
  apply append_same_length_inj in H as [_ H]; [discriminate | reflexivity].
Qed.

Lemma filter_none {A} (P : A -> Prop) `{forall x, Decision (P x)} (l : list A) :
  (forall x, x ∈ l -> ~ P x) -> filter P l = [].
Proof.
  induction l as [|x l IH]; intros Hno; [reflexivity|].
  rewrite filter_cons_False by (apply Hno; left).
  apply IH. intros y Hy. apply Hno. right. exact Hy.
Qed.

Lemma resolve_position_key n js : forall acc,
  resolve_key (interface_key n HW_IF_POSITION) js acc
  = acc ++ replicate (length (filter (fun joint => name joint = n) js))
             POSITION.
Proof.
  induction js as [|joint rest IH]; intros acc.
  - simpl. rewrite app_nil_r. reflexivity.
  - cbn [resolve_key].
    destruct (String.eqb_spec (interface_key n HW_IF_POSITION)
                (interface_key (name joint) HW_IF_VELOCITY)) as [Hv|_];
      [destruct (position_key_not_velocity _ _ Hv)|].
    destruct (String.eqb_spec (interface_key n HW_IF_POSITION)
                (interface_key (name joint) HW_IF_EFFORT)) as [He|_];
      [destruct (position_key_not_effort _ _ He)|].
    destruct (String.eqb_spec (interface_key n HW_IF_POSITION)
                (interface_key (name joint) HW_IF_POSITION)) as [Hp|Hp].
    + apply position_key_inj in Hp.
      rewrite filter_cons_True by (symmetry; exact Hp).
      rewrite IH. unfold push_back. rewrite <- app_assoc. reflexivity.
    + rewrite filter_cons_False by (intros Hn; apply Hp; rewrite Hn; reflexivity).
      apply IH.
Qed.

Lemma unique_name_once js : forall joint,
  NoDup (name <$> js) -> joint ∈ js ->
  length (filter (fun other => name other = name joint) js) = 1.
Proof.
  induction js as [|j0 rest IH]; intros joint Hnd Hin.
  - inversion Hin.
  - rewrite fmap_cons in Hnd. apply NoDup_cons in Hnd as [Hfresh Hnd].
    destruct (decide (name j0 = name joint)) as [Heq|Hne].
    + rewrite filter_cons_True by exact Heq.
      rewrite filter_none; [reflexivity|].
      intros other Hother Hname. apply Hfresh.
      rewrite Heq, <- Hname. apply list_elem_of_fmap.
      exists other. split; [reflexivity | exact Hother].
    + rewrite filter_cons_False by exact Hne.
      apply IH; [exact Hnd|].
      apply elem_of_cons in Hin as [->|Hin]; [congruence | exact Hin].
Qed.

Lemma resolve_position_keys js : forall l acc,
  NoDup (name <$> js) ->
  (forall joint, joint ∈ l -> joint ∈ js) ->
  resolve_start
    ((fun joint => interface_key (name joint) HW_IF_POSITION) <$> l) js acc
  = acc ++ replicate (length l) POSITION.
Proof.
  induction l as [|joint rest IH]; intros acc Hnd Hsub.
  - simpl. rewrite app_nil_r. reflexivity.
  - rewrite fmap_cons. cbn [resolve_start].
    rewrite resolve_position_key, unique_name_once by (auto; apply Hsub; left).
    rewrite IH by (auto; intros; apply Hsub; right; assumption).
    rewrite <- app_assoc. reflexivity.
Qed.

(** X11: on a device whose joints have pairwise different names, the start
    list made of the full names of all exported command interfaces
    resolves to one POSITION entry per joint.  From a sized state with at
    least one joint and every axis UNDEFINED the request therefore returns
    OK and sets every axis to POSITION. *)
Theorem exported_commands_switch (stops : list string) (hw : HW) :
  let js := joints (info_ hw) in
  sized hw ->
  js <> [] ->
  NoDup (name <$> js) ->
  Forall (eq UNDEFINED) (control_lvl_ hw) ->
  exists handles hw1,
    export_command_interfaces hw = Normal handles /\
    resolve_start (full_name <$> handles) js []
      = replicate (length js) POSITION /\
    prepare_command_mode_switch (full_name <$> handles) stops hw
      = Normal (OK, hw1) /\
    control_lvl_ hw1 = replicate (length js) POSITION.
Proof.
  intros js Hs Hjs Hnd Hfree. unfold js in *. clear js.
  pose proof Hs as (_ & _ & _ & Hcp & _).
  unfold export_command_interfaces.
  rewrite export_command_from_closed by (simpl; lia).
  cbn [app].
  set (handles := imap (fun k joint => position_command (0 + k) joint)
                    (joints (info_ hw))).
  assert (Hres :
    resolve_start (full_name <$> handles) (joints (info_ hw)) []
    = replicate (length (joints (info_ hw))) POSITION).
  { unfold handles. rewrite full_name_position_commands.
    rewrite resolve_position_keys by auto. reflexivity. }
  exists handles.
  exists (set_control_lvl
            (resolve_start (full_name <$> handles) (joints (info_ hw)) [])
            (released stops hw)).
  split; [reflexivity|]. split; [exact Hres|].
  split; [|exact Hres].
  apply switch_commits; try assumption.
  - rewrite Hres. apply length_replicate.
  - rewrite Hres. apply (all_equal_first_uniform POSITION).
    + destruct (joints (info_ hw)); [congruence|]. left.
    + apply Forall_replicate_eq.
  - apply unlock_free. exact Hfree.
Qed.

Lemma exported_commands_switch_witness :
  exists handles hw1,
    export_command_interfaces
      (set_control_lvl [UNDEFINED; UNDEFINED]
         (snd (configure OK two_axis_info constructed))) = Normal handles /\
    prepare_command_mode_switch (full_name <$> handles) []
      (set_control_lvl [UNDEFINED; UNDEFINED]
         (snd (configure OK two_axis_info constructed))) = Normal (OK, hw1) /\
    control_lvl_ hw1 = [POSITION; POSITION].
Proof.
  destruct (exported_commands_switch []
              (set_control_lvl [UNDEFINED; UNDEFINED]
                 (snd (configure OK two_axis_info constructed))))
    as (handles & hw1 & Hexp & _ & Hrun & Hlvl).
  - repeat split.
  - discriminate.
  - apply (bool_decide_unpack _). vm_compute. exact I.
  - repeat constructor.
  - exists handles, hw1. auto.
Defined.

(** ** start *)

Lemma vec_get_Some {A} (v : list A) (i : nat) (x : A) :
  v !! i = Some x -> vec_get v i = Normal x.
Proof. intros H. unfold vec_get. rewrite H. reflexivity. Qed.

Lemma alter_at {A} (f : A -> A) (v : list A) (i : nat) (x : A) :
  v !! i = Some x -> alter f i v = <[i := f x]> v.
Proof.
  intros Hx. apply list_eq. intros j.
  assert (Hi : i < length v) by (apply lookup_lt_is_Some; eauto).
  destruct (decide (i = j)) as [<-|Hne].
  - rewrite list_lookup_alter_eq, Hx, list_lookup_insert_eq by exact Hi.
    reflexivity.
  - rewrite list_lookup_alter_ne, list_lookup_insert_ne by exact Hne.
    reflexivity.
Qed.

(** One of the four [isnan] tests of the defaults loop. *)
Lemma seed_step (get : HW -> list float) (set : list float -> HW -> HW)
    (hw : HW) (i : nat) (x : float) :
  get hw !! i = Some x ->
  set (get hw) hw = hw ->
  (if is_nan x
   then let! l := vec_set (get hw) i 0%float in Normal (set l hw)
   else Normal hw)
  = Normal (set (alter seeded i (get hw)) hw).
Proof.
  intros Hx Hid. rewrite (alter_at seeded _ _ _ Hx). unfold seeded.
  destruct (is_nan x).
  - unfold vec_set.
    destruct (decide (i < length (get hw))) as [_|Hn]; [reflexivity|].
    exfalso. apply Hn. apply lookup_lt_is_Some. eauto.
  - rewrite list_insert_id by exact Hx. rewrite Hid. reflexivity.
Qed.

Lemma seed_defaults_closed (i : nat) (hw : HW) :
  i < length (hw_positions_ hw) ->
  i < length (hw_velocities_ hw) ->
  i < length (hw_efforts_ hw) ->
  i < length (hw_commands_positions_ hw) ->
  i < length (hw_commands_velocities_ hw) ->
  i < length (hw_commands_efforts_ hw) ->
  i < length (control_lvl_ hw) ->
  seed_defaults i hw = Normal (seeded_state i hw).
Proof.
  intros Hp Hv He Hcp Hcv Hce Hc.
  destruct (lookup_lt_is_Some_2 _ _ Hp) as [p Hp'].
  destruct (lookup_lt_is_Some_2 _ _ Hv) as [v Hv'].
  destruct (lookup_lt_is_Some_2 _ _ He) as [e He'].
  destruct (lookup_lt_is_Some_2 _ _ Hcp) as [cp Hcp'].
  destruct (lookup_lt_is_Some_2 _ _ Hcv) as [cv Hcv'].
  destruct (lookup_lt_is_Some_2 _ _ Hce) as [ce Hce'].
  unfold seed_defaults.
  rewrite (vec_get_Some _ _ _ Hp'). cbn [bind].
  rewrite (vec_get_Some _ _ _ Hv'). cbn [bind].
  rewrite (seed_step hw_velocities_ set_hw_velocities hw i v Hv')
    by (destruct hw; reflexivity).
  cbn [bind].
  set (hw1 := set_hw_velocities _ hw).
  rewrite (vec_get_Some (hw_efforts_ hw1) i e He'). cbn [bind].
  rewrite (seed_step hw_efforts_ set_hw_efforts hw1 i e He')
    by (destruct hw; reflexivity).
  cbn [bind].
  set (hw2 := set_hw_efforts _ hw1).
  rewrite (vec_get_Some (hw_commands_positions_ hw2) i cp Hcp'). cbn [bind].
  rewrite (vec_get_Some (hw_commands_velocities_ hw2) i cv Hcv'). cbn [bind].
  rewrite (seed_step hw_commands_velocities_ set_hw_commands_velocities
             hw2 i cv Hcv') by (destruct hw; reflexivity).
  cbn [bind].
  set (hw3 := set_hw_commands_velocities _ hw2).
  rewrite (vec_get_Some (hw_commands_efforts_ hw3) i ce Hce'). cbn [bind].
  rewrite (seed_step hw_commands_efforts_ set_hw_commands_efforts
             hw3 i ce Hce') by (destruct hw; reflexivity).
  cbn [bind].
  unfold vec_set.
  destruct (decide (i < length (control_lvl_ _))) as [_|Hn];
    [reflexivity | exfalso; apply Hn; exact Hc].
Qed.

(** What [start] returns from a sized state with at least one joint when
    the feedback holds a motor position [p]. *)
Lemma start_closed (p : float) (others : list float) (hw : HW) :
  sized hw -> joints (info_ hw) <> [] ->
  start (p :: others) hw
  = Normal
      (OK,
       set_status STARTED
         (seeded_state 0
            (set_base_command
               {| frame_id := frame_id (base_command_ hw);
                  command_id := 0;
                  motor_cmd :=
                    motor_cmd (base_command_ hw) ++ [initial_motor_command p] |}
               (call RefreshFeedback
                  (call CreateSessionRealTime
                     (call CreateSession
                        (call (UdpRealtimeConnect (robot_ip_of (info_ hw)))
                           (call (TcpConnect (robot_ip_of (info_ hw)))
                              (set_info (touch_robot_ip (info_ hw))
                                 hw))))))))).
Proof.
  intros (Hp & Hv & He & Hcp & Hcv & Hce & Hc) Hjs.
  assert (Hn : 0 < length (joints (info_ hw)))
    by (destruct (joints (info_ hw)); [congruence | simpl; lia]).
  unfold start. cbv zeta. cbn [vec_get lookup list_lookup bind].
  rewrite seed_defaults_closed by (simpl; lia).
  cbn [bind]. unfold push_back, initial_motor_command.
  rewrite (vec_get_Some _ 0 UNDEFINED); [reflexivity|].
  simpl. apply list_lookup_insert_eq. lia.
Qed.

(** X12: from a sized state with at least one joint, given a feedback
    that holds a motor position [p], [start] returns OK with status
    STARTED.  It makes its five calls on the Session in order, sets the
    command identifier to 0 and appends one motor command holding [p],
    velocity 0 and force 100, keeping the frame identifier.  In the first
    slot of the velocities, efforts, commanded velocities and commanded
    efforts a NaN becomes 0 and any other value stays; the first axis
    becomes UNDEFINED.  Every other slot and mode, the positions and the
    position commands are as before. *)
Theorem start_effect (p : float) (others : list float) (hw : HW) :
  sized hw -> joints (info_ hw) <> [] ->
  exists hw',
    start (p :: others) hw = Normal (OK, hw') /\
    status_ hw' = STARTED /\
    joints (info_ hw') = joints (info_ hw) /\
    session_log_ hw'
      = session_log_ hw ++ start_calls (robot_ip_of (info_ hw)) /\
    base_command_ hw'
      = {| frame_id := frame_id (base_command_ hw);
           command_id := 0;
           motor_cmd :=
             motor_cmd (base_command_ hw) ++ [initial_motor_command p] |} /\
    hw_positions_ hw' = hw_positions_ hw /\
    hw_commands_positions_ hw' = hw_commands_positions_ hw /\
    hw_velocities_ hw' = alter seeded 0 (hw_velocities_ hw) /\
    hw_efforts_ hw' = alter seeded 0 (hw_efforts_ hw) /\
    hw_commands_velocities_ hw'
      = alter seeded 0 (hw_commands_velocities_ hw) /\
    hw_commands_efforts_ hw' = alter seeded 0 (hw_commands_efforts_ hw) /\
    control_lvl_ hw' = <[0 := UNDEFINED]> (control_lvl_ hw).
Proof.
  intros Hs Hjs. eexists. split; [apply start_closed; assumption|].
  simpl. unfold push_back, start_calls.
  rewrite <- !app_assoc. repeat split.
Qed.

Lemma start_effect_witness :
  exists hw',
    start [0.5%float] (snd (configure OK two_axis_info constructed))
      = Normal (OK, hw') /\
    hw_velocities_ hw' = [0%float; nan] /\
    control_lvl_ hw' = [UNDEFINED; POSITION].
Proof.
  destruct (start_effect 0.5%float []
              (snd (configure OK two_axis_info constructed)))
    as (hw' & Hrun & _ & _ & _ & _ & _ & _ & Hv & _ & _ & _ & Hc).
  - repeat split.
  - discriminate.
  - exists hw'. split; [exact Hrun|].
    rewrite Hv, Hc. split; reflexivity.
Defined.

(** X13: from a sized state [start] leaves a vector exactly when the
    feedback holds no motor position or the description has no joint: the
    first motor position and the first slot of every vector are read
    whatever the number of joints. *)
Theorem start_out_of_range (motor_positions : list float) (hw : HW) :
  sized hw ->
  (start motor_positions hw = OutOfRange <->
   motor_positions = [] \/ joints (info_ hw) = []).
Proof.
  intros Hs. split.
  - intros Hout.
    destruct motor_positions as [|p others]; [left; reflexivity|].
    destruct (joints (info_ hw)) as [|joint rest] eqn:Hjs;
      [right; reflexivity|].
    rewrite start_closed in Hout; [discriminate | exact Hs |].
    rewrite Hjs. discriminate.
  - intros [-> | Hjs]; [reflexivity|].
    destruct Hs as (Hp & _). rewrite Hjs in Hp.
    unfold start. cbv zeta.
    destruct motor_positions as [|p others]; [reflexivity|].
    cbn [vec_get lookup list_lookup bind].
    unfold seed_defaults. cbn [hw_positions_ set_base_command call set_info].
    destruct (hw_positions_ hw); [reflexivity | discriminate].
Qed.

Lemma start_out_of_range_witness :
  start [0.5%float] constructed = OutOfRange /\
  start [] (snd (configure OK gripper_info constructed)) = OutOfRange.
Proof.
  split.
  - apply (start_out_of_range [0.5%float] constructed).
    + repeat split.
    + right. reflexivity.
  - apply (start_out_of_range [] (snd (configure OK gripper_info constructed))).
    + repeat split.
    + left. reflexivity.
Defined.

(** X14: the defaults loop of [start] runs for the first joint only.  On a
    description with two or more joints, [configure] from an empty mode
    table followed by [start] leaves the first axis UNDEFINED and every
    other axis at POSITION; every request without stop keys is then
    refused. *)
Theorem later_axes_stay_taken
    (info : HardwareInfo) (hw0 hw1 hw2 : HW) (motor_positions : list float) :
  control_lvl_ hw0 = [] ->
  2 <= length (joints info) ->
  configure OK info hw0 = (OK, hw1) ->
  start motor_positions hw1 = Normal (OK, hw2) ->
  control_lvl_ hw2
    = UNDEFINED :: replicate (length (joints info) - 1) POSITION /\
  forall starts,
    exists hw3,
      prepare_command_mode_switch starts [] hw2 = Normal (ERROR, hw3).
Proof.
  intros Hempty Hn Hconf Hstart.
  destruct (configure_sized info hw0 hw1 OK Hconf) as [Hs1 Hi1].
  assert (Hc1 : control_lvl_ hw1 = replicate (length (joints info)) POSITION).
  { unfold configure in Hconf. simpl in Hconf.
    destruct (validate_joints (joints info)); [|discriminate].
    injection Hconf as <-. simpl. rewrite Hempty. apply resize_nil. }
  destruct motor_positions as [|p others]; [discriminate|].
  assert (Hjs1 : joints (info_ hw1) <> []).
  { rewrite Hi1. destruct (joints info); [simpl in Hn; lia | discriminate]. }
  assert (Hpost : control_lvl_ hw2 = <[0 := UNDEFINED]> (control_lvl_ hw1) /\
                  joints (info_ hw2) = joints (info_ hw1)).
  { rewrite (start_closed p others hw1 Hs1 Hjs1) in Hstart.
    injection Hstart as <-. split; reflexivity. }
  destruct Hpost as [Hc2 Hj2]. rewrite Hc1 in Hc2. rewrite Hi1 in Hj2.
  destruct (joints info) as [|j0 [|j1 rest]];
    [simpl in Hn; lia | simpl in Hn; lia |].
  cbn [length replicate Nat.sub] in *.
  rewrite ?Nat.sub_0_r. simpl in Hc2.
  split; [exact Hc2|].
  intros starts. unfold prepare_command_mode_switch. rewrite Hj2.
  remember (resolve_start starts (j0 :: j1 :: rest) []) as new_modes.
  destruct (Nat.eqb_spec (length new_modes) (length (j0 :: j1 :: rest)))
    as [Hlen|]; cbn [negb]; [|eauto].
  destruct new_modes as [|m0 [|m1 ms]]; try discriminate Hlen.
  cbn [all_equal_first bind].
  destruct (forallb _ (m1 :: ms)); cbn [negb]; [|eauto].
  cbn [stop_motion bind]. rewrite Hj2.
  eexists.
  apply (set_new_modes_busy [UNDEFINED] (m0 :: m1 :: ms) hw2 [] POSITION
           (replicate (length rest) POSITION) [] [m0] (m1 :: ms)
           (length rest));
    try reflexivity.
  - exact Hc2.
  - repeat constructor.
  - discriminate.
Qed.

Lemma later_axes_stay_taken_witness :
  exists hw1 hw2,
    configure OK two_axis_info constructed = (OK, hw1) /\
    start [0.5%float] hw1 = Normal (OK, hw2) /\
    control_lvl_ hw2 = [UNDEFINED; POSITION] /\
    exists hw3,
      prepare_command_mode_switch ["left/position"; "right/position"] [] hw2
      = Normal (ERROR, hw3).
Proof.
  eexists. eexists. split; [reflexivity|].
  split; [vm_compute; reflexivity|].
  match goal with
  | |- control_lvl_ ?h2 = _ /\ _ =>
      destruct (later_axes_stay_taken two_axis_info constructed
                  (snd (configure OK two_axis_info constructed)) h2
                  [0.5%float])
        as [Hlvl Hrefused]
  end.
  - reflexivity.
  - simpl. lia.
  - reflexivity.
  - vm_compute. reflexivity.
  - split; [exact Hlvl|].
    apply (Hrefused ["left/position"; "right/position"]).
Defined.

(** ** read and the exported handles *)

Lemma read_closed (fingers : list float) (hw hw' : HW) (r : return_type) :
  read fingers hw = Normal (r, hw') ->
  exists value others,
    fingers = value :: others /\ r = OK /\
    0 < length (hw_positions_ hw) /\
    hw' = set_hw_positions (<[0 := value]> (hw_positions_ hw))
            (call GetMeasuredGripperMovement hw).
Proof.
  unfold read. cbv zeta. intros H.
  apply bind_Normal in H as (value & Hv & H).
  apply bind_Normal in H as (p & Hp & H).
  destruct fingers as [|value' others]; [discriminate|].
  injection Hv as ->. apply vec_set_Normal in Hp as [-> Hlen].
  injection H as <- <-. exists value, others. auto.
Qed.

(** X15: the exported handles refer to the storage itself.  After a
    [read] that returned OK from a sized state, exporting again gives the
    same state and command handles as before, the handle on position slot
    0 yields the value just read, and every other handle yields what it
    yielded before. *)
Theorem read_seen_through_handles
    (fingers : list float) (hw hw' : HW) :
  sized hw ->
  read fingers hw = Normal (OK, hw') ->
  export_state_interfaces hw' = export_state_interfaces hw /\
  export_command_interfaces hw' = export_command_interfaces hw /\
  forall h,
    get_value hw' h
    = match handle_storage h, handle_index h with
      | Positions, 0 => fingers !! 0
      | _, _ => get_value hw h
      end.
Proof.
  intros (Hp & Hv & _ & Hcp & _) Hread.
  apply read_closed in Hread as (value & others & -> & _ & Hlen & ->).
  split; [|split].
  - unfold export_state_interfaces.
    rewrite !export_state_from_closed
      by (simpl; rewrite ?length_insert; lia).
    reflexivity.
  - unfold export_command_interfaces.
    rewrite !export_command_from_closed by (simpl; lia).
    reflexivity.
  - intros [n k [| |] [|i]]; simpl; try reflexivity.
    + apply list_lookup_insert_eq. exact Hlen.
    + apply list_lookup_insert_ne. discriminate.
Qed.

Lemma read_seen_through_handles_witness :
  exists hw',
    read [0.25%float] (snd (configure OK gripper_info constructed))
      = Normal (OK, hw') /\
    get_value hw' (position_state 0 (gripper_axis "gripper_joint"))
      = Some 0.25%float /\
    get_value hw' (velocity_state 0 (gripper_axis "gripper_joint"))
      = Some nan.
Proof.
  eexists. split; [reflexivity|].
  match goal with
  | |- get_value ?h' _ = _ /\ _ =>
      destruct (read_seen_through_handles [0.25%float]
                  (snd (configure OK gripper_info constructed)) h')
        as (_ & _ & Hget); [repeat split | reflexivity |]
  end.
  split; rewrite Hget; reflexivity.
Defined.

(** ** What no reachable state holds *)

Lemma unset_or_zero_nan : unset_or_zero quiet_NaN.
Proof. left. reflexivity. Qed.

Lemma unset_or_zero_zero : unset_or_zero 0%float.
Proof. right. reflexivity. Qed.

Lemma unset_or_zero_seeded (x : float) :
  unset_or_zero x -> unset_or_zero (seeded x).
Proof.
  intros H. unfold seeded. destruct (is_nan x) eqn:Hx.
  - apply unset_or_zero_zero.
  - exact H.
Qed.

Lemma halt_unset_or_zero stops js : forall l,
  Forall unset_or_zero l ->
  Forall unset_or_zero (zip_with (halt stops) js l).
Proof.
  induction js as [|joint rest IH]; intros [|x l] Hl; simpl;
    try constructor.
  - unfold halt. inversion Hl; subst.
    destruct (stopped_by stops joint);
      [apply unset_or_zero_zero | assumption].
  - inversion Hl; subst. apply IH. assumption.
Qed.

(** The state a call returns differs from the state before it, or from
    the state the stop loops left, in the mode table only. *)
Lemma switch_state start stops (hw hw' : HW) (r : return_type) :
  sized hw ->
  prepare_command_mode_switch start stops hw = Normal (r, hw') ->
  hw' = set_control_lvl (control_lvl_ hw') hw \/
  hw' = set_control_lvl (control_lvl_ hw') (released stops hw).
Proof.
  intros Hs H. unfold prepare_command_mode_switch in H.
  destruct (negb _).
  { injection H as _ <-. left. rewrite set_control_lvl_same. reflexivity. }
  apply bind_Normal in H as (same & _ & H).
  destruct (negb same).
  { injection H as _ <-. left. rewrite set_control_lvl_same. reflexivity. }
  rewrite (stop_motion_released stops hw Hs) in H. cbn [bind] in H.
  apply set_new_modes_frame in H as [Hf _]. right. exact Hf.
Qed.

Lemma start_no_joint (motor_positions : list float) (hw : HW) :
  sized hw -> joints (info_ hw) = [] ->
  start motor_positions hw = OutOfRange.
Proof.
  intros (Hp & _) Hjs. rewrite Hjs in Hp.
  unfold start. cbv zeta.
  destruct motor_positions as [|p others]; [reflexivity|].
  cbn [vec_get lookup list_lookup bind].
  unfold seed_defaults. cbn [hw_positions_ set_base_command call set_info].
  destruct (hw_positions_ hw); [reflexivity | discriminate].
Qed.

Lemma never_measured_switch start stops (hw hw' : HW) (r : return_type) :
  sized hw -> never_measured hw ->
  prepare_command_mode_switch start stops hw = Normal (r, hw') ->
  never_measured hw'.
Proof.
  intros Hs (Hv & He & Hcv & Hce & Hf & Hc & Hm) H.
  destruct (switch_state start stops hw hw' r Hs H) as [-> | ->];
    unfold never_measured; simpl;
    repeat split; try assumption; apply halt_unset_or_zero; assumption.
Qed.

Lemma never_measured_start motor_positions (hw hw' : HW) (r : return_type) :
  sized hw -> never_measured hw ->
  start motor_positions hw = Normal (r, hw') ->
  never_measured hw'.
Proof.
  intros Hs (Hv & He & Hcv & Hce & Hf & Hc & Hm) H.
  destruct (joints (info_ hw)) as [|joint rest] eqn:Hjs.
  { rewrite (start_no_joint motor_positions hw Hs Hjs) in H. discriminate. }
  destruct motor_positions as [|p others]; [discriminate|].
  rewrite start_closed in H; [|exact Hs | rewrite Hjs; discriminate].
  injection H as _ <-. unfold never_measured. simpl.
  repeat split; try assumption;
    try (apply Forall_alter; [assumption|];
         intros x _ Hx; apply unset_or_zero_seeded; exact Hx).
  apply Forall_app. split; [exact Hm|]. repeat constructor.
Qed.

(** X16: in every state the component can go through, all vectors have
    one slot per joint; the velocity and effort slots and the
    commanded-velocity and commanded-effort slots hold NaN or 0 and
    nothing else; the frame identifier and the command identifier of the
    command message are 0; and every motor command of the message has
    velocity 0 and force 100. *)
Theorem reachable_never_measured (hw : HW) :
  reachable hw -> sized hw /\ never_measured hw.
Proof.
  intros Hreach. split; [apply reachable_sized; exact Hreach|].
  induction Hreach as
    [ | rc info hw r hw' Hre IH Hrun | start stops hw r hw' Hre IH Hrun
      | mp hw r hw' Hre IH Hrun | hw r hw' Hre IH Hrun
      | fingers hw r hw' Hre IH Hrun | hw r hw' Hre IH Hrun
      | i x hw l Hre IH Hset ].
  - unfold never_measured. simpl. repeat split; constructor.
  - destruct IH as (Hv & He & Hcv & Hce & Hf & Hc & Hm).
    destruct rc.
    + unfold configure in Hrun. simpl in Hrun.
      destruct (validate_joints (joints info)); injection Hrun as _ <-;
        unfold never_measured; simpl;
        repeat split; try assumption;
        apply Forall_resize; try assumption; apply unset_or_zero_nan.
    + injection Hrun as _ <-. repeat split; assumption.
  - apply (never_measured_switch start stops hw hw' r);
      [apply reachable_sized; exact Hre | exact IH | exact Hrun].
  - apply (never_measured_start mp hw hw' r);
      [apply reachable_sized; exact Hre | exact IH | exact Hrun].
  - injection Hrun as _ <-. exact IH.
  - apply read_closed in Hrun as (value & others & _ & _ & _ & ->).
    exact IH.
  - injection Hrun as _ <-. exact IH.
  - exact IH.
Qed.

Lemma reachable_never_measured_witness :
  sized (snd (stop (snd (configure OK two_axis_info constructed)))) /\
  never_measured (snd (stop (snd (configure OK two_axis_info constructed)))).
Proof.
  apply (reachable_never_measured
           (snd (stop (snd (configure OK two_axis_info constructed))))).
  apply (reach_stop (snd (configure OK two_axis_info constructed)) OK);
    [|reflexivity].
  apply (reach_configure OK two_axis_info constructed OK);
    [apply reach_constructed | reflexivity].
Defined.

(** ** The order of the keys of a request *)

Lemma resolve_start_cons key rest js :
  resolve_start (key :: rest) js []
  = resolve_key key js [] ++ resolve_start rest js [].
Proof.
  change (resolve_start (key :: rest) js [])
    with (resolve_start ([key] ++ rest) js []).
  rewrite resolve_start_app. simpl.
  generalize (resolve_key key js []). clear key.
  induction rest as [|key rest IH]; intros acc; simpl.
  - rewrite app_nil_r. reflexivity.
  - rewrite IH. rewrite (IH (resolve_key key js [])).
    rewrite resolve_key_app, app_assoc. reflexivity.
Qed.

Lemma resolve_start_Permutation start start' js :
  Permutation start start' ->
  Permutation (resolve_start start js []) (resolve_start start' js []).
Proof.
  induction 1 as [|key l l' _ IH|k1 k2 l|l1 l2 l3 _ IH1 _ IH2].
  - constructor.
  - rewrite !resolve_start_cons. apply Permutation_app_head. exact IH.
  - rewrite !resolve_start_cons, !app_assoc.
    apply Permutation_app_tail. apply Permutation_app_comm.
  - etransitivity; eassumption.
Qed.

Lemma all_equal_first_true (l : list integration_lvl_t) :
  all_equal_first l = Normal true <->
  exists m, In m l /\ Forall (eq m) l.
Proof.
  split.
  - destruct l as [|first others]; [discriminate|]. simpl.
    intros H. injection H as H. exists first. split; [left; reflexivity|].
    constructor; [reflexivity|].
    apply Forall_forall. intros x Hx.
    rewrite forallb_forall in H. symmetry. apply lvl_eqb_eq. apply H.
    apply list_elem_of_In. exact Hx.
  - intros (m & Hin & Hall).
    apply (all_equal_first_uniform m); [|exact Hall].
    apply list_elem_of_In. exact Hin.
Qed.

Lemma all_equal_first_Permutation (l l' : list integration_lvl_t) :
  Permutation l l' ->
  all_equal_first l = all_equal_first l' /\
  (all_equal_first l = Normal true -> l = l').
Proof.
  intros Hperm.
  assert (Htrue : forall a b, Permutation a b ->
            all_equal_first a = Normal true ->
            all_equal_first b = Normal true /\ a = b).
  { intros a b Hab Ha. apply all_equal_first_true in Ha as (m & Hin & Hall).
    assert (Hallb : Forall (eq m) b) by (rewrite <- Hab; exact Hall).
    split.
    - apply all_equal_first_true. exists m. split; [|exact Hallb].
      apply list_elem_of_In. rewrite <- Hab. apply list_elem_of_In. exact Hin.
    - rewrite <- (replicate_as_Forall_2 m (length a) a eq_refl Hall).
      rewrite <- (replicate_as_Forall_2 m (length b) b eq_refl Hallb).
      rewrite (Permutation_length Hab). reflexivity. }
  split; [|intros H; apply (Htrue l l' Hperm H)].
  destruct (all_equal_first l) as [[|]|] eqn:Hl.
  - symmetry. apply (Htrue l l' Hperm Hl).
  - destruct (all_equal_first l') as [[|]|] eqn:Hl'; [|reflexivity|].
    + symmetry in Hperm. destruct (Htrue l' l Hperm Hl') as [Hc _]. congruence.
    + destruct l'; [|discriminate]. apply Permutation_nil_r in Hperm.
      subst l. discriminate.
  - destruct l; [|discriminate]. symmetry in Hperm.
    apply Permutation_nil_r in Hperm. subst l'. reflexivity.
Qed.

Lemma released_same_keys stops stops' (hw : HW) :
  (forall key, In key stops <-> In key stops') ->
  released stops hw = released stops' hw.
Proof.
  intros Hkeys.
  assert (Hsame : forall joint, stopped_by stops joint = stopped_by stops' joint).
  { intros joint. unfold stopped_by.
    apply eq_true_iff_eq. rewrite !existsb_exists.
    split; intros (key & Hin & Hf); exists key; split; try exact Hf;
      apply Hkeys; exact Hin. }
  unfold released.
  rewrite !(zip_with_agree (halt stops) (halt stops')),
    (zip_with_agree (unlock stops) (unlock stops'));
    try reflexivity;
    apply Forall_forall; intros joint _ b; unfold halt, unlock;
    rewrite Hsame; reflexivity.
Qed.

(** X17: the outcome of a request does not depend on the order of its
    keys.  From a sized state, two requests whose start lists are
    permutations of each other and whose stop lists hold the same keys, in
    any order and any number of times, have the same outcome. *)
Theorem switch_order_irrelevant
    (start start' stops stops' : list string) (hw : HW) :
  sized hw ->
  Permutation start start' ->
  (forall key, In key stops <-> In key stops') ->
  prepare_command_mode_switch start stops hw
  = prepare_command_mode_switch start' stops' hw.
Proof.
  intros Hs Hperm Hkeys.
  pose proof (resolve_start_Permutation start start' (joints (info_ hw)) Hperm)
    as Hres.
  destruct (all_equal_first_Permutation _ _ Hres) as [Hcheck Heq].
  unfold prepare_command_mode_switch.
  rewrite <- (Permutation_length Hres), <- Hcheck.
  destruct (negb _); [reflexivity|].
  destruct (all_equal_first (resolve_start start (joints (info_ hw)) []))
    as [[|]|]; cbn [bind negb]; try reflexivity.
  rewrite !stop_motion_released by exact Hs.
  rewrite <- (Heq eq_refl), (released_same_keys stops stops' hw Hkeys).
  reflexivity.
Qed.

Lemma switch_order_irrelevant_witness :
  prepare_command_mode_switch ["left/position"; "right/position"]
    ["left/position"; "right/position"]
    (snd (configure OK two_axis_info constructed))
  = prepare_command_mode_switch ["right/position"; "left/position"]
      ["right/position"; "left/position"; "right/position"]
      (snd (configure OK two_axis_info constructed)).
Proof.
  apply switch_order_irrelevant.
  - repeat split.
  - apply perm_swap.
  - intros key. simpl. tauto.
Defined.

(** ** interfaces_to_string *)

Lemma put_interfaces_closed interfaces : forall ss,
  put_interfaces interfaces ss
  = String.append ss (interface_lines interfaces).
Proof.
  induction interfaces as [|key rest IH]; intros ss; simpl.
  - induction ss as [|c ss IHs]; [reflexivity|].
    change (String.append (String c ss) EmptyString)
      with (String c (String.append ss EmptyString)).
    rewrite <- IHs. reflexivity.
  - rewrite IH. unfold put, interface_line.
    rewrite !append_assoc. reflexivity.
Qed.

Lemma interfaces_to_string_closed start stops :
  interfaces_to_string start stops
  = String.append
      (String.append "Start interfaces: " (String.append endl
         (String.append "[" endl)))
      (String.append (interface_lines start)
         (String.append
            (String.append "]" (String.append endl
               (String.append "Stop interfaces: " (String.append endl
                  (String.append "[" endl)))))
            (String.append (interface_lines stops)
               (String.append "]" endl)))).
Proof.
  unfold interfaces_to_string. cbv zeta.
  rewrite !put_interfaces_closed. unfold put.
  rewrite !append_empty_l, !append_assoc. reflexivity.
Qed.

Lemma interface_lines_occurs interfaces key :
  In key interfaces ->
  exists a b,
    interface_lines interfaces = String.append a (String.append key b).
Proof.
  induction interfaces as [|k rest IH]; intros Hin; [destruct Hin|].
  destruct Hin as [->|Hin].
  - exists "  ", (String.append endl (interface_lines rest)).
    simpl. unfold interface_line. rewrite !append_assoc. reflexivity.
  - destruct (IH Hin) as (a & b & Hab).
    exists (String.append (interface_line k) a), b.
    simpl. rewrite Hab, !append_assoc. reflexivity.
Qed.

Lemma interface_lines_length interfaces :
  String.length (interface_lines interfaces)
  = sum_list ((fun key => String.length key + 3) <$> interfaces).
Proof.
  induction interfaces as [|k rest IH]; [reflexivity|].
  rewrite fmap_cons. cbn [sum_list sum_list_with foldr interface_lines].
  fold (interface_lines rest). unfold interface_line.
  rewrite !length_append, IH. unfold endl, id. simpl String.length. lia.
Qed.

Lemma occurs_right (p q key : string) :
  (exists a b, q = String.append a (String.append key b)) ->
  exists a b, String.append p q = String.append a (String.append key b).
Proof.
  intros (a & b & ->). exists (String.append p a), b.
  rewrite !append_assoc. reflexivity.
Qed.

Lemma occurs_left (s q key : string) :
  (exists a b, s = String.append a (String.append key b)) ->
  exists a b, String.append s q = String.append a (String.append key b).
Proof.
  intros (a & b & ->). exists a, (String.append b q).
  rewrite !append_assoc. reflexivity.
Qed.

(** X18: the text [interfaces_to_string] builds consists of the heading of
    the start list, one line per start key, the heading of the stop list
    and one line per stop key, each line being the key between two spaces
    and a line feed.  Every key of either list occurs in the text, and the
    text is 45 characters long plus, for every key, the length of the key
    plus 3. *)
Theorem interfaces_to_string_lists_keys (start stops : list string) :
  (forall key,
     In key (start ++ stops) ->
     found_in (interfaces_to_string start stops) key = true) /\
  String.length (interfaces_to_string start stops)
  = 45 + sum_list ((fun key => String.length key + 3) <$> (start ++ stops)).
Proof.
  split.
  - intros key Hin. apply found_in_occurs.
    rewrite interfaces_to_string_closed.
    apply in_app_or in Hin as [Hin|Hin].
    + apply occurs_right, occurs_left, interface_lines_occurs. exact Hin.
    + apply occurs_right, occurs_right, occurs_right, occurs_left,
        interface_lines_occurs.
      exact Hin.
  - rewrite interfaces_to_string_closed, !length_append,
      !interface_lines_length, fmap_app, sum_list_with_app.
    unfold endl. simpl String.length. lia.
Qed.

(** ** Reapplying a request; the stop set *)

Lemma unlock_keeps_taken stops js : forall lvls,
  length lvls = length js ->
  Forall (fun mode => mode <> UNDEFINED) lvls ->
  Exists (fun joint => stopped_by stops joint = false) js ->
  ~ Forall (eq UNDEFINED) (zip_with (unlock stops) js lvls).
Proof.
  induction js as [|joint rest IH]; intros [|lvl lvls] Hlen Hdef Hex Hall;
    try discriminate; [inversion Hex|].
  simpl in Hall. inversion Hall as [|? ? Hhead Htail]; subst.
  inversion Hdef as [|? ? Hlvl Hrest]; subst.
  inversion Hex as [? ? Hno|? ? Hlater]; subst.
  - unfold unlock in Hhead. rewrite Hno in Hhead. congruence.
  - apply (IH lvls); try assumption. simpl in Hlen. lia.
Qed.

(** C3 (as the code has it): a request whose start list resolves to as
    many entries as there are axes, all of the requested mode [m], applied
    to a sized state in which every axis is UNDEFINED, returns OK and sets
    every axis to [m].  Applied again to the resulting state, the same
    start list returns OK, with every axis at [m], when the stop list of
    that call holds for every axis a key in which the axis's name occurs;
    it returns ERROR when some axis's name occurs in no key of the stop
    list.  With an empty stop list it returns ERROR and changes nothing,
    also after [stop]. *)
Theorem uniform_switch_succeeds
    (start stops : list string) (hw : HW) (m : integration_lvl_t) :
  let js := joints (info_ hw) in
  let new_modes := resolve_start start js [] in
  sized hw ->
  length new_modes = length js ->
  In m new_modes ->
  Forall (eq m) new_modes ->
  Forall (eq UNDEFINED) (control_lvl_ hw) ->
  exists hw1,
    prepare_command_mode_switch start stops hw = Normal (OK, hw1) /\
    control_lvl_ hw1 = replicate (length js) m /\
    (forall stops',
       Forall (fun joint => stopped_by stops' joint = true) js ->
       exists hw2,
         prepare_command_mode_switch start stops' hw1 = Normal (OK, hw2) /\
         control_lvl_ hw2 = replicate (length js) m) /\
    (forall stops',
       Exists (fun joint => stopped_by stops' joint = false) js ->
       exists hw2,
         prepare_command_mode_switch start stops' hw1 = Normal (ERROR, hw2)) /\
    prepare_command_mode_switch start [] hw1 = Normal (ERROR, hw1) /\
    prepare_command_mode_switch start [] (snd (stop hw1))
    = Normal (ERROR, snd (stop hw1)).
Proof.
  intros js new_modes Hs Hlen Hin Hall Hfree.
  assert (Hsame : all_equal_first new_modes = Normal true).
  { apply (all_equal_first_uniform m); [|assumption].
    apply list_elem_of_In. assumption. }
  assert (Hrep : new_modes = replicate (length js) m).
  { symmetry. apply replicate_as_Forall. split; assumption. }
  assert (Hdef : Forall (fun mode => mode <> UNDEFINED) new_modes).
  { apply resolve_start_defined. constructor. }
  assert (Hjs : js <> []).
  { intros Hnil. rewrite Hnil in Hlen.
    destruct new_modes; [destruct Hin | discriminate]. }
  set (hw1 := set_control_lvl new_modes (released stops hw)).
  assert (Hs1 : sized hw1).
  { pose proof (released_sized stops hw Hs) as (? & ? & ? & ? & ? & ? & ?).
    unfold sized, hw1. simpl in *. repeat split; assumption. }
  assert (Hrefuse : forall h : HW,
            control_lvl_ h = new_modes -> joints (info_ h) = js ->
            prepare_command_mode_switch start [] h = Normal (ERROR, h)).
  { intros h Hc Hj. destruct new_modes as [|first others] eqn:Hnm;
      [destruct Hin|].
    inversion Hdef as [|? ? Hfirst _]; subst.
    apply (first_axis_taken_refuses start h first others);
      [exact Hc | exact Hfirst | rewrite Hj; exact Hjs]. }
  exists hw1. split; [|split; [|split; [|split; [|split]]]].
  - apply switch_commits; try assumption.
    apply unlock_free. assumption.
  - unfold hw1. simpl. exact Hrep.
  - intros stops' Hcover.
    exists (set_control_lvl new_modes (released stops' hw1)). split.
    + apply (switch_commits start stops' hw1); try assumption.
      apply unlock_all. assumption.
    + simpl. exact Hrep.
  - intros stops' Hmiss.
    rewrite (switch_past_checks start stops' hw1 Hs1 Hlen Hsame).
    pose proof (released_sized stops' hw1 Hs1) as (_ & _ & _ & _ & _ & _ & Hc).
    change (joints (info_ (released stops' hw1))) with js in Hc.
    change (joints (info_ hw1)) with js.
    destruct (set_new_modes_in_range new_modes (length js) 0
                (released stops' hw1)) as (r & hw2 & Hrun);
      [rewrite Hc; lia | rewrite Hlen; lia |].
    fold new_modes. rewrite Hrun. destruct r; [|eauto].
    exfalso.
    pose proof (set_new_modes_OK_free (length js) new_modes
                  (released stops' hw1) hw2 [] _ eq_refl Hc Hrun) as Hall'.
    apply (unlock_keeps_taken stops' js new_modes Hlen Hdef Hmiss).
    exact Hall'.
  - apply Hrefuse; reflexivity.
  - apply Hrefuse; reflexivity.
Qed.

Lemma uniform_switch_succeeds_witness :
  exists hw1,
    prepare_command_mode_switch ["gripper_joint/position"] []
      (set_control_lvl [UNDEFINED]
         (snd (configure OK gripper_info constructed))) = Normal (OK, hw1) /\
    control_lvl_ hw1 = [POSITION] /\
    (exists hw2,
       prepare_command_mode_switch ["gripper_joint/position"]
         ["gripper_joint/position"] hw1 = Normal (OK, hw2) /\
       control_lvl_ hw2 = [POSITION]) /\
    prepare_command_mode_switch ["gripper_joint/position"] [] hw1
    = Normal (ERROR, hw1).
Proof.
  destruct (uniform_switch_succeeds ["gripper_joint/position"] []
              (set_control_lvl [UNDEFINED]
                 (snd (configure OK gripper_info constructed))) POSITION)
    as (hw1 & Hrun & Hlvl & Hagain & _ & Hrefused & _).
  - repeat split.
  - reflexivity.
  - left. reflexivity.
  - repeat constructor.
  - repeat constructor.
  - exists hw1. split; [exact Hrun|]. split; [exact Hlvl|].
    split; [|exact Hrefused].
    apply (Hagain ["gripper_joint/position"]). repeat constructor.
Defined.

(** C3, the claim as stated fails in its second half.  On the started
    one-axis gripper the request that starts the axis in position mode
    with an empty stop list returns OK.  The same request is then refused:
    straight away, after [stop], and after a request that only names the
    axis in its stop list, which is itself rejected by the count check
    and releases nothing. *)
Lemma same_request_refused_when_reapplied :
  exists hw0 hw1,
    start [0%float] (snd (configure OK gripper_info constructed))
      = Normal (OK, hw0) /\
    control_lvl_ hw0 = [UNDEFINED] /\
    prepare_command_mode_switch ["gripper_joint/position"] [] hw0
      = Normal (OK, hw1) /\
    control_lvl_ hw1 = [POSITION] /\
    prepare_command_mode_switch ["gripper_joint/position"] [] hw1
      = Normal (ERROR, hw1) /\
    prepare_command_mode_switch ["gripper_joint/position"] []
      (snd (stop hw1)) = Normal (ERROR, snd (stop hw1)) /\
    prepare_command_mode_switch [] ["gripper_joint/position"] hw1
      = Normal (ERROR, hw1).
Proof.
  eexists. eexists.
  split; [vm_compute; reflexivity|].
  split; [reflexivity|].
  split; [vm_compute; reflexivity|].
  split; [reflexivity|].
  split; [vm_compute; reflexivity|].
  split; vm_compute; reflexivity.
Qed.




